(** * ts-coding-agent: the tool-invocation protocol

    A shallow embedding of [src/tools.ts], [src/parser.ts] and the session
    loop of [src/main.ts], and the properties of the protocol proved on it.

    Conventions of the embedding.

    - A JavaScript string is a [string]; each [ascii] stands for one UTF-16
      code unit in the range 0..255.  Code units above that range do not
      occur in any constant the properties depend on.
    - An [await]ed promise is the value it resolves to, a rejected promise
      is a thrown exception: the program is sequential and [await]s every
      call at once.
    - The outside world (operator terminal, filesystem, shell, markup
      parser, model transport, Node's [path] module) is a record of answer
      functions, [World].  Every answer may depend on everything that
      happened before, the [trace].
    - Output to the console is not an event of the trace, except for the
      final report of [main], which is its result. *)

From Stdlib Require Import String Ascii List Bool Arith Lia.
Import ListNotations.
Set Warnings "-register-all".
Local Open Scope list_scope.
Local Open Scope string_scope.

(** ** JavaScript strings *)

Module JsString.

Definition chr (n : nat) : string := String (ascii_of_nat n) EmptyString.

(** Line feed and the double quote, which a literal cannot hold. *)
Definition nl : string := chr 10.
Definition dq : string := chr 34.

Fixpoint of_codes (l : list nat) : string :=
  match l with
  | [] => EmptyString
  | n :: l' => String (ascii_of_nat n) (of_codes l')
  end.

(** [WhiteSpace] and [LineTerminator] of ECMAScript below 256: what
    [String.prototype.trim] removes and what [\s] matches. *)
Definition isWhitespace (c : ascii) : bool :=
  let n := nat_of_ascii c in
  (((9 <=? n) && (n <=? 13)) || (n =? 32) || (n =? 160))%nat.

Fixpoint trimStart (s : string) : string :=
  match s with
  | EmptyString => EmptyString
  | String c s' => if isWhitespace c then trimStart s' else s
  end.

Fixpoint allWhitespace (s : string) : bool :=
  match s with
  | EmptyString => true
  | String c s' => isWhitespace c && allWhitespace s'
  end.

Fixpoint trimEnd (s : string) : string :=
  match s with
  | EmptyString => EmptyString
  | String c s' => if allWhitespace s then EmptyString else String c (trimEnd s')
  end.

Definition trim (s : string) : string := trimEnd (trimStart s).

Definition lowerChar (c : ascii) : ascii :=
  let n := nat_of_ascii c in
  if (((65 <=? n) && (n <=? 90))
      || ((192 <=? n) && (n <=? 222) && negb (n =? 215)))%nat
  then ascii_of_nat (n + 32) else c.

Fixpoint toLowerCase (s : string) : string :=
  match s with
  | EmptyString => EmptyString
  | String c s' => String (lowerChar c) (toLowerCase s')
  end.

Fixpoint startsWith (p s : string) : bool :=
  match p, s with
  | EmptyString, _ => true
  | String a p', String b s' => Ascii.eqb a b && startsWith p' s'
  | String _ _, EmptyString => false
  end.

(** [s.includes(sub)] *)
Fixpoint includes (sub s : string) : bool :=
  startsWith sub s
  || match s with
     | EmptyString => false
     | String _ s' => includes sub s'
     end.

Fixpoint drop (n : nat) (s : string) : string :=
  match n, s with
  | 0, _ => s
  | S n', String _ s' => drop n' s'
  | S _, EmptyString => EmptyString
  end.

(** [s.substring(0, n)] *)
Definition substring0 (n : nat) (s : string) : string := String.substring 0 n s.

Fixpoint join (sep : string) (l : list string) : string :=
  match l with
  | [] => EmptyString
  | [x] => x
  | x :: l' => x ++ sep ++ join sep l'
  end.

End JsString.
Import JsString.

(** ** JavaScript values, exceptions *)

(** What the markup parser builds with [explicitArray: false]: text becomes a
    string, an element with children an object, a repeated child an array.
    [params] is typed [any] in [parseAndExecuteTool], so the handlers meet
    all of these, and [undefined] for an absent child. *)
Inductive jsval : Type :=
| JUndefined
| JNull
| JStr (s : string)
| JObj (fields : list (string * jsval))
| JArr (items : list jsval).

Module Js.

(** [ToBoolean] *)
Definition truthy (v : jsval) : bool :=
  match v with
  | JUndefined | JNull => false
  | JStr EmptyString => false
  | _ => true
  end.

Definition nullish (v : jsval) : bool :=
  match v with
  | JUndefined | JNull => true
  | _ => false
  end.

Fixpoint lookup (k : string) (fields : list (string * jsval)) : jsval :=
  match fields with
  | [] => JUndefined
  | (k', v) :: rest => if String.eqb k k' then v else lookup k rest
  end.

(** [v[k]] on a value that is not nullish, for the property names the
    program reads (they name no inherited property). *)
Definition prop (v : jsval) (k : string) : jsval :=
  match v with
  | JObj fields => lookup k fields
  | _ => JUndefined
  end.

Definition isStr (s : string) (v : jsval) : bool :=
  match v with
  | JStr s' => String.eqb s s'
  | _ => false
  end.

(** [ToString], as a template literal applies it. *)
Fixpoint toStr (v : jsval) : string :=
  match v with
  | JUndefined => "undefined"
  | JNull => "null"
  | JStr s => s
  | JObj _ => "[object Object]"
  | JArr items =>
      join "," (map (fun x => if nullish x then EmptyString else toStr x) items)
  end.

End Js.

(** A thrown [Error].  [stderr] and [stdout] are the extra fields of the
    error [child_process.exec] rejects with; empty when absent (both are
    only tested for truthiness). *)
Record exn : Type := mkExn {
  err_message : string;
  err_stderr : string;
  err_stdout : string
}.

Inductive result (A : Type) : Type :=
| Ok (a : A)
| Throw (e : exn).
Arguments Ok {A} a.
Arguments Throw {A} e.

(** ** Events and the world *)

(** What [fs.readdir] finds at a directory: a fault, or the entries, each
    with the listing of the directory it is ([isDirectory()]), if it is one. *)
Inductive dirtree : Type :=
| DirError (e : exn)
| DirEntries (entries : list (string * option dirtree)).

Inductive event : Type :=
| EvQuestion (prompt : string) (answer : result string)
| EvReaddir (dir : string)
| EvReadFile (path : string)
| EvMkdir (dir : string)
| EvWriteFile (path content : string)
| EvExec (command : string)
| EvSendMessage (msg : string)
| EvInvoke (tool : string)
| EvClose.

Definition trace := list event.

(** [EvInvoke] marks the call of a tool function by the dispatcher; the other
    events are requests to the outside. *)
Definition isInvoke (e : event) : bool :=
  match e with EvInvoke _ => true | _ => false end.

Definition isModelCall (e : event) : bool :=
  match e with EvSendMessage _ => true | _ => false end.

Definition isPrompt (e : event) : bool :=
  match e with EvQuestion _ _ => true | _ => false end.

(** Directory creation, file write, command spawn. *)
Definition isSideEffect (e : event) : bool :=
  match e with
  | EvMkdir _ | EvWriteFile _ _ | EvExec _ => true
  | _ => false
  end.

(** Any request to the filesystem. *)
Definition isFsIO (e : event) : bool :=
  match e with
  | EvReaddir _ | EvReadFile _ | EvMkdir _ | EvWriteFile _ _ => true
  | _ => false
  end.

(** [result.response] of [chat.sendMessage]: [text()] returns or throws;
    [finishReason] is [candidates?.[0]?.finishReason]. *)
Record GenerateContentResponse : Type := mkResponse {
  text : result string;
  finishReason : option string
}.

Record World : Type := mkWorld {
  rl_question : trace -> string -> result string;
  fs_readdir : trace -> string -> dirtree;
  fs_readFile : trace -> string -> result string;
  fs_mkdir : trace -> string -> result unit;
  fs_writeFile : trace -> string -> string -> result unit;
  execAsync : trace -> string -> result (string * string);
  parseStringPromise : string -> result jsval;
  chat_sendMessage : trace -> string -> result GenerateContentResponse;
  path_join : string -> string -> string;
  path_dirname : string -> string;
  (** the [TypeError] the runtime throws at the named expression *)
  typeError : string -> exn
}.

(** ** The effect monad

    A computation reads the history and yields a result or a thrown
    exception, with the events it added. *)
Definition M (A : Type) : Type := trace -> result A * trace.

Definition ret {A} (a : A) : M A := fun _ => (Ok a, []).

Definition throw {A} (e : exn) : M A := fun _ => (Throw e, []).

Definition bind {A B} (m : M A) (k : A -> M B) : M B :=
  fun h =>
    match m h with
    | (Ok a, e1) => let '(r, e2) := k a (h ++ e1)%list in (r, (e1 ++ e2)%list)
    | (Throw e, e1) => (Throw e, e1)
    end.

(** [try { m } catch (error) { handler error }] *)
Definition try_catch {A} (m : M A) (handler : exn -> M A) : M A :=
  fun h =>
    match m h with
    | (Ok a, e1) => (Ok a, e1)
    | (Throw e, e1) =>
        let '(r, e2) := handler e (h ++ e1)%list in (r, (e1 ++ e2)%list)
    end.

(** [try { m } finally { f }], for an [f] that does not throw. *)
Definition try_finally {A} (m : M A) (f : M unit) : M A :=
  fun h =>
    let '(r, e1) := m h in
    let '(_, e2) := f (h ++ e1)%list in (r, (e1 ++ e2)%list).

Definition lift {A} (r : result A) : M A := fun _ => (r, []).

(** One request: the event is recorded, the world's answer returned. *)
Definition request {A} (answer : trace -> result A) (ev : event) : M A :=
  fun h => (answer h, [ev]).

Definition emit (ev : event) : M unit := fun _ => (Ok tt, [ev]).

Declare Scope js_scope.
Delimit Scope js_scope with js.
Notation "x <- m ;; k" := (bind m (fun x => k))
  (at level 61, m at next level, right associativity) : js_scope.
Notation "m ;;; k" := (bind m (fun _ => k))
  (at level 61, right associativity) : js_scope.
Local Open Scope js_scope.

(** ** [src/tools.ts] *)

Record ToolResponse : Type := mkToolResponse {
  success : bool;
  message : string
}.

Module ToolType.
Definition ListFile := "list_file".
Definition ReadFile := "read_file".
Definition WriteFile := "write_file".
Definition AskQuestion := "ask_question".
Definition ExecuteCommand := "execute_command".
Definition Complete := "complete".
End ToolType.

Section Tools.

Variable w : World.

(** *** Runtime checks of the operations the handlers apply to [params] *)

(** [obj.k]: a [TypeError] when [obj] is [undefined] or [null]. *)
Definition member (expr : string) (obj : jsval) (k : string) : M jsval :=
  if Js.nullish obj then throw (typeError w expr) else ret (Js.prop obj k).

(** [v.includes(sub)]: a string searches itself, an array its elements,
    anything else has no such method. *)
Definition call_includes (expr : string) (v : jsval) (sub : string) : M bool :=
  match v with
  | JStr s => ret (includes sub s)
  | JArr items => ret (existsb (Js.isStr sub) items)
  | _ => throw (typeError w expr)
  end.

(** An argument Node validates as a string before it does anything. *)
Definition string_arg (expr : string) (v : jsval) : M string :=
  match v with
  | JStr s => ret s
  | _ => throw (typeError w expr)
  end.

(** [rl.question(prompt)] *)
Definition question (prompt : string) : M string :=
  fun h => let a := rl_question w h prompt in (a, [EvQuestion prompt a]).

Definition askForUserApproval (question_text : string) : M bool :=
  answer <- question (question_text ++ " [y/n]: ") ;;
  ret (String.eqb (toLowerCase answer) "y").

(** *** 1. ListFile *)

Fixpoint readDirRecursive (dir : string) (found : dirtree) : M (list string) :=
  match found with
  | DirError e => emit (EvReaddir dir) ;;; throw e
  | DirEntries entries =>
      emit (EvReaddir dir) ;;;
      (fix each (entries : list (string * option dirtree)) : M (list string) :=
         match entries with
         | [] => ret []
         | (name, sub) :: rest =>
             let fullPath := path_join w dir name in
             below <- match sub with
                      | Some found' => readDirRecursive fullPath found'
                      | None => ret []
                      end ;;
             after <- each rest ;;
             ret (fullPath :: below ++ after)%list
         end) entries
  end.

Definition readdir_names (dir : string) : M (list string) :=
  fun h =>
    match fs_readdir w h dir with
    | DirError e => (Throw e, [EvReaddir dir])
    | DirEntries entries => (Ok (map fst entries), [EvReaddir dir])
    end.

Definition listFile (params : jsval) : M ToolResponse :=
  try_catch
    (path <- member "params.path" params "path" ;;
     let targetPath := if Js.truthy path then path else JStr "." in
     rec <- member "params.recursive" params "recursive" ;;
     recursive <- match rec with
                  | JUndefined | JNull => ret false
                  | JStr s => ret (String.eqb (toLowerCase s) "true")
                  | _ => throw (typeError w "params.recursive.toLowerCase")
                  end ;;
     files <- (if recursive then
                 dir <- string_arg "fs.readdir" targetPath ;;
                 fun h => readDirRecursive dir (fs_readdir w h dir) h
               else
                 dir <- string_arg "fs.readdir" targetPath ;;
                 entries <- readdir_names dir ;;
                 ret (map (path_join w dir) entries)) ;;
     ret (mkToolResponse true
            ("Directory " ++ Js.toStr targetPath ++ " listing:" ++ nl
             ++ join nl (map (fun f => "- " ++ f) files))))
    (fun error =>
       ret (mkToolResponse false ("Failed to list directory: " ++ err_message error))).

(** *** 2. ReadFile *)

Definition readFile (params : jsval) : M ToolResponse :=
  try_catch
    (path <- member "params.path" params "path" ;;
     traversal <- call_includes "params.path.includes" path ".." ;;
     if traversal then
       ret (mkToolResponse false "Invalid path: Path traversal detected.")
     else
       file <- string_arg "fs.readFile" path ;;
       content <- request (fun h => fs_readFile w h file) (EvReadFile file) ;;
       ret (mkToolResponse true content))
    (fun error =>
       ret (mkToolResponse false ("Failed to read file: " ++ err_message error))).

(** *** 3. WriteFile *)

(** The two pictographs of the prompts lie above the 8-bit range; their
    UTF-8 bytes stand for them. *)
Definition warning_sign : string := of_codes [226; 154; 160; 239; 184; 143].
Definition radioactive_sign : string := of_codes [226; 152; 162; 239; 184; 143].

Definition writeConfirmation (path : jsval) (content : string) : string :=
  nl ++ warning_sign ++ " Action Required: Attempting to write to file "
     ++ dq ++ Js.toStr path ++ dq ++ "." ++ nl
     ++ "   Content preview (first 100 chars):" ++ nl
     ++ "   " ++ dq ++ substring0 100 content
     ++ (if (100 <? String.length content)%nat then "..." else EmptyString) ++ dq
     ++ nl ++ nl ++ "Do you want to allow this write operation?".

Definition writeFile (params : jsval) : M ToolResponse :=
  try_catch
    (path <- member "params.path" params "path" ;;
     traversal <- call_includes "params.path.includes" path ".." ;;
     if traversal then
       ret (mkToolResponse false "Invalid path: Path traversal detected.")
     else
       content <- member "params.content" params "content" ;;
       content <- string_arg "params.content.substring" content ;;
       isApproved <- askForUserApproval (writeConfirmation path content) ;;
       if negb isApproved then
         ret (mkToolResponse false "Write operation cancelled by user.")
       else
         file <- string_arg "path.dirname" path ;;
         let dir := path_dirname w file in
         request (fun h => fs_mkdir w h dir) (EvMkdir dir) ;;;
         request (fun h => fs_writeFile w h file content) (EvWriteFile file content) ;;;
         ret (mkToolResponse true ("Successfully wrote to file " ++ file)))
    (fun error =>
       ret (mkToolResponse false ("Failed to write file: " ++ err_message error))).

(** *** 4. AskQuestion *)

Definition askQuestion (params : jsval) : M ToolResponse :=
  try_catch
    (q <- member "params.question" params "question" ;;
     answer <- question (nl ++ "Question: " ++ Js.toStr q ++ nl ++ "Answer: ") ;;
     ret (mkToolResponse true ("User answer: " ++ answer)))
    (fun error =>
       ret (mkToolResponse false ("Failed to ask question: " ++ err_message error))).

(** *** 5. ExecuteCommand *)

Definition executeConfirmation (command : jsval) : string :=
  nl ++ radioactive_sign
     ++ " Action Required: Attempting to execute the following command:"
     ++ nl ++ nl ++ "   " ++ Js.toStr command ++ nl ++ nl
     ++ "Do you want to allow this command execution?".

Definition executeCommand (params : jsval) : M ToolResponse :=
  try_catch
    (command <- member "params.command" params "command" ;;
     isApproved <- askForUserApproval (executeConfirmation command) ;;
     if negb isApproved then
       ret (mkToolResponse false "Command execution cancelled by user.")
     else
       cmd <- string_arg "child_process.exec" command ;;
       out <- request (fun h => execAsync w h cmd) (EvExec cmd) ;;
       let '(stdout, _) := out in
       ret (mkToolResponse true
              ("Command executed successfully."
               ++ (if String.eqb stdout EmptyString then EmptyString
                   else nl ++ "Output:" ++ nl ++ stdout))))
    (fun error =>
       ret (mkToolResponse false
              ("Failed to execute command: " ++ err_message error ++ nl
               ++ (if String.eqb (err_stderr error) EmptyString then EmptyString
                   else "Stderr: " ++ err_stderr error ++ nl)
               ++ (if String.eqb (err_stdout error) EmptyString then EmptyString
                   else "Stdout: " ++ err_stdout error)))).

(** *** 6. Complete *)

Definition complete (params : jsval) : M ToolResponse :=
  result <- member "params.result" params "result" ;;
  ret (mkToolResponse true ("Task completed: " ++ Js.toStr result)).

End Tools.

(** ** [src/parser.ts] *)

Module Regex.

Definition fence : string := "```".

(** [s.replace(/^```(?:xml)?\s*/i, '')] *)
Definition stripFenceOpen (s : string) : string :=
  if startsWith fence s then
    let r := drop 3 s in
    let r := if String.eqb (toLowerCase (substring0 3 r)) "xml" then drop 3 r else r in
    trimStart r
  else s.

(** [s.replace(/```\s*$/, '')]: the leftmost fence that only white space
    separates from the end is cut off with what follows it. *)
Fixpoint stripFenceClose (s : string) : string :=
  if startsWith fence s && allWhitespace (drop 3 s) then EmptyString
  else match s with
       | EmptyString => EmptyString
       | String c s' => String c (stripFenceClose s')
       end.

(** [[a-z_]] *)
Definition isNameChar (c : ascii) : bool :=
  let n := nat_of_ascii c in
  (((97 <=? n) && (n <=? 122)) || (n =? 95))%nat.

(** The longest run of name characters at the head, and the rest. *)
Fixpoint nameRun (s : string) : string * string :=
  match s with
  | EmptyString => (EmptyString, EmptyString)
  | String c s' =>
      if isNameChar c then let '(name, rest) := nameRun s' in (String c name, rest)
      else (EmptyString, s)
  end.

(** [s.match(/<([a-z_]+)>/)], the captured group of the leftmost match. *)
Fixpoint toolNameRegex (s : string) : option string :=
  match s with
  | EmptyString => None
  | String c s' =>
      if Ascii.eqb c "<"%char then
        let '(name, rest) := nameRun s' in
        if negb (String.eqb name EmptyString) && startsWith ">" rest
        then Some name
        else toolNameRegex s'
      else toolNameRegex s'
  end.

End Regex.

Record ParseResult : Type := mkParseResult {
  response : ToolResponse;
  toolType : option string;
  isComplete : bool
}.

Definition cleanResponse (llmResponse : string) : string :=
  trim (Regex.stripFenceClose (Regex.stripFenceOpen (trim llmResponse))).

Section Parser.

Variable w : World.

(** The [switch] over [toolType]; [None] is its [default] arm. *)
Definition dispatch (tool : string) (params : jsval) : option (M ToolResponse) :=
  if String.eqb tool ToolType.ListFile then Some (listFile w params)
  else if String.eqb tool ToolType.ReadFile then Some (readFile w params)
  else if String.eqb tool ToolType.WriteFile then Some (writeFile w params)
  else if String.eqb tool ToolType.AskQuestion then Some (askQuestion w params)
  else if String.eqb tool ToolType.ExecuteCommand then Some (executeCommand w params)
  else if String.eqb tool ToolType.Complete then Some (complete w params)
  else None.

Definition parseAndExecuteTool (llmResponse : string) : M ParseResult :=
  try_catch
    (let cleanedResponse := cleanResponse llmResponse in
     if String.eqb cleanedResponse EmptyString then
       ret (mkParseResult (mkToolResponse false "Cleaned response is empty.") None false)
     else
       match Regex.toolNameRegex cleanedResponse with
       | None =>
           ret (mkParseResult
                  (mkToolResponse false "No valid tool tag found in the cleaned response.")
                  None false)
       | Some tool =>
           parsedXml <- lift (parseStringPromise w cleanedResponse) ;;
           found <- member w "parsedXml[toolType]" parsedXml tool ;;
           let params := if Js.truthy found then found else JObj [] in
           match dispatch tool params with
           | Some handler =>
               emit (EvInvoke tool) ;;;
               toolResponse <- handler ;;
               ret (mkParseResult toolResponse (Some tool)
                      (String.eqb tool ToolType.Complete))
           | None =>
               ret (mkParseResult
                      (mkToolResponse false ("Unknown tool type: " ++ tool))
                      (Some tool) false)
           end
       end)
    (fun error =>
       ret (mkParseResult
              (mkToolResponse false
                 ("Error processing tool response: " ++ err_message error))
              None false)).

End Parser.

(** ** [src/main.ts] *)

(** The three reports that end [main]:
    [Exhausted] is "--- Reached maximum turns, stopping execution. ---",
    [Completed] is "--- Task Completed ---",
    [Aborted] is "--- Execution stopped unexpectedly. ---". *)
Inductive Terminal : Type := Completed | Exhausted | Aborted.

Record LoopState : Type := mkLoopState {
  st_isComplete : bool;
  st_turns : nat;
  st_messageToSend : option string
}.

Definition maxTurns : nat := 15.

Definition emptyResponseMessage : string :=
  "[SYSTEM] Received empty response from model. Please check previous steps and try again, outputting a valid XML tool.".

Definition errorMessageForLLM (error : exn) : string :=
  "[SYSTEM Error] An error occurred: " ++ err_message error
  ++ ". Please analyze the error and previous steps, then decide the next best tool to use or use the complete tool if the task is impossible.".

(** The next outbound message after a tool ran. *)
Definition toolResultMessage (r : ParseResult) : string :=
  let toolResultPrefix :=
    match toolType r with
    | Some t => "[" ++ t ++ " Result]"
    | None => "[Execution Result]"
    end in
  let resultStatus := if success (response r) then "Success" else "Failure" in
  toolResultPrefix ++ " " ++ resultStatus ++ ":" ++ nl ++ message (response r).

Definition isBlockReason (finish : option string) : bool :=
  match finish with
  | Some r => String.eqb r "SAFETY" || String.eqb r "RECITATION" || String.eqb r "OTHER"
  | None => false
  end.

Section Main.

Variable w : World.

(** One pass through the body of the [while] loop, entered with the
    message to send.  The boolean of the result is [true] when the pass
    left the loop through [break]. *)
Definition turn (s : LoopState) (messageToSend : string) : M (LoopState * bool) :=
  let turns := S (st_turns s) in
  try_catch
    (result <- request (fun h => chat_sendMessage w h messageToSend)
                       (EvSendMessage messageToSend) ;;
     assistantResponseText <- lift (text result) ;;
     if String.eqb assistantResponseText EmptyString then
       if isBlockReason (finishReason result) then
         ret (mkLoopState (st_isComplete s) turns (Some messageToSend), true)
       else
         ret (mkLoopState (st_isComplete s) turns (Some emptyResponseMessage), false)
     else
       r <- parseAndExecuteTool w assistantResponseText ;;
       if negb (isComplete r) then
         ret (mkLoopState (isComplete r) turns (Some (toolResultMessage r)), false)
       else
         ret (mkLoopState (isComplete r) turns None, false))
    (fun error =>
       if includes "SAFETY" (err_message error) then
         ret (mkLoopState true turns (Some messageToSend), false)
       else
         ret (mkLoopState (st_isComplete s) turns (Some (errorMessageForLLM error)), false)).

(** [while (!isComplete && turns < maxTurns && messageToSend !== null)].
    [fuel] bounds the passes; [maxTurns] of it is never used up before the
    condition fails ([loop_fuel]). *)
Fixpoint loop (fuel : nat) (s : LoopState) : M LoopState :=
  match fuel with
  | 0 => ret s
  | S fuel' =>
      match st_messageToSend s with
      | Some messageToSend =>
          if negb (st_isComplete s) && (st_turns s <? maxTurns)%nat then
            out <- turn s messageToSend ;;
            let '(s', broke) := out in
            if broke then ret s' else loop fuel' s'
          else ret s
      | None => ret s
      end
  end.

Definition finalReport (s : LoopState) : Terminal :=
  if (maxTurns <=? st_turns s)%nat then Exhausted
  else if st_isComplete s then Completed
  else Aborted.

Definition main : M Terminal :=
  try_finally
    (userTask <- question w "Task: " ;;
     s <- loop maxTurns (mkLoopState false 0 (Some userTask)) ;;
     ret (finalReport s))
    (emit EvClose).

End Main.

(** * Vocabulary of the properties *)

(** [only P m]: every event [m] adds satisfies [P], whatever the history. *)
Definition only {A} (P : event -> bool) (m : M A) : Prop :=
  forall h, forallb P (snd (m h)) = true.

(** [total m]: [m] returns, it does not throw. *)
Definition total {A} (m : M A) : Prop :=
  forall h, exists a, fst (m h) = Ok a.

(** The events of the tool functions: requests to the operator, the
    filesystem and the shell. *)
Definition isToolEvent (e : event) : bool :=
  match e with
  | EvSendMessage _ | EvInvoke _ | EvClose => false
  | _ => true
  end.

(** The prompt and the decision of the Approval Gate, for the event of a
    prompt the operator answered. *)
Definition gateOutcome (e : event) : option (string * bool) :=
  match e with
  | EvQuestion prompt (Ok a) => Some (prompt, String.eqb (toLowerCase a) "y")
  | _ => None
  end.

Definition cancelledWrite : ToolResponse :=
  mkToolResponse false "Write operation cancelled by user.".

Definition cancelledCommand : ToolResponse :=
  mkToolResponse false "Command execution cancelled by user.".

Definition traversalRejected : ToolResponse :=
  mkToolResponse false "Invalid path: Path traversal detected.".

(** The call of the model with [msg] after history [h] ends in the fault
    [e]: [chat.sendMessage] throws it, or [response.text()] does. *)
Definition thrownBy (w : World) (h : trace) (msg : string) (e : exn) : Prop :=
  chat_sendMessage w h msg = Throw e
  \/ exists resp, chat_sendMessage w h msg = Ok resp /\ text resp = Throw e.

(** Handlers called and messages sent to the model, counted in a trace. *)
Definition invocations (evs : trace) : nat := length (filter isInvoke evs).

Definition modelCalls (evs : trace) : nat := length (filter isModelCall evs).

(** What [parseAndExecuteTool] returns when no tool was recognized. *)
Definition decodeFailure (r : ParseResult) : Prop :=
  toolType r = None /\ success (response r) = false /\ isComplete r = false.

Definition isToolName (name : string) : bool :=
  existsb (String.eqb name)
    [ToolType.ListFile; ToolType.ReadFile; ToolType.WriteFile;
     ToolType.AskQuestion; ToolType.ExecuteCommand; ToolType.Complete].

(** Every match of [/<([a-z_]+)>/] in [s], left to right. *)
Fixpoint openingTags (s : string) : list string :=
  match s with
  | EmptyString => []
  | String c s' =>
      if Ascii.eqb c "<"%char then
        let '(name, rest) := Regex.nameRun s' in
        if negb (String.eqb name EmptyString) && startsWith ">" rest
        then name :: openingTags s'
        else openingTags s'
      else openingTags s'
  end.

(** The opening tags of [s] that name a tool: its recognizable action blocks. *)
Definition actionTags (s : string) : list string := filter isToolName (openingTags s).

(** Every character is one of [[a-z_]]. *)
Fixpoint allNameChars (s : string) : bool :=
  match s with
  | EmptyString => true
  | String c s' => Regex.isNameChar c && allNameChars s'
  end.

(** Reads of the filesystem. *)
Definition isFsRead (e : event) : bool :=
  match e with
  | EvReaddir _ | EvReadFile _ => true
  | _ => false
  end.

Definition isClose (e : event) : bool :=
  match e with EvClose => true | _ => false end.

Definition notClose (e : event) : bool := negb (isClose e).

(** The text a response is wrapped in when the model fences it. *)
Definition fenced (lang body : string) : string :=
  Regex.fence ++ lang ++ nl ++ body ++ nl ++ Regex.fence.

(** [<name>] occurs in [s], for a name of the pattern [[a-z_]+]. *)
Definition hasOpeningTag (s : string) : Prop :=
  exists pre name post,
    name <> EmptyString /\ allNameChars name = true
    /\ s = pre ++ "<" ++ name ++ ">" ++ post.

(** The transport never delivers a text: each call ends in a fault that
    does not name SAFETY, or in an empty text without a block reason. *)
Definition neverAnswers (w : World) : Prop :=
  forall h msg,
    (exists e, thrownBy w h msg e /\ includes "SAFETY" (err_message e) = false)
    \/ (exists resp, chat_sendMessage w h msg = Ok resp
                     /\ text resp = Ok EmptyString
                     /\ isBlockReason (finishReason resp) = false).

(** No entry of the directory is a directory itself. *)
Definition flat (entries : list (string * option dirtree)) : bool :=
  forallb (fun entry => match snd entry with None => true | Some _ => false end) entries.

(** The listing [listFile] returns for the paths [files] under [dir]. *)
Definition listing (dir : string) (files : list string) : ToolResponse :=
  mkToolResponse true
    ("Directory " ++ dir ++ " listing:" ++ nl ++ join nl (map (fun f => "- " ++ f) files)).

(** ** Example worlds *)

Definition plainError (msg : string) : exn := mkExn msg EmptyString EmptyString.

Definition textResponse (s : string) : GenerateContentResponse :=
  mkResponse (Ok s) (Some "STOP").

(** An empty working directory, an operator who answers each prompt by
    [answers], a parser and a model given by the caller. *)
Definition scripted (answers : string -> string)
    (parser : string -> result jsval)
    (model : trace -> string -> result GenerateContentResponse) : World :=
  mkWorld
    (fun _ prompt => Ok (answers prompt))
    (fun _ _ => DirEntries [])
    (fun _ file => Throw (plainError ("ENOENT: no such file or directory, open " ++ file)))
    (fun _ _ => Ok tt)
    (fun _ _ _ => Ok tt)
    (fun _ _ => Ok (EmptyString, EmptyString))
    parser
    model
    (fun dir name => dir ++ "/" ++ name)
    (fun _ => ".")
    (fun expr => plainError ("TypeError at " ++ expr)).

Definition noParser (_ : string) : result jsval :=
  Throw (plainError "Unclosed root tag").

(** A parser that knows the documents of [table] and rejects the rest. *)
Fixpoint tableParser (table : list (string * jsval)) (s : string) : result jsval :=
  match table with
  | [] => noParser s
  | (doc, v) :: rest => if String.eqb s doc then Ok v else tableParser rest s
  end.

(** A model that answers its n-th call with the n-th entry of [script],
    and with an empty text once the script is over. *)
Definition scriptedModel (script : list (result GenerateContentResponse))
    (h : trace) (_ : string) : result GenerateContentResponse :=
  nth (modelCalls h) script (Ok (mkResponse (Ok EmptyString) None)).

Definition silentModel (_ : trace) (_ : string) : result GenerateContentResponse :=
  Ok (mkResponse (Ok EmptyString) None).

(** The scenario of the specification: write [Hello World!] to [hello.txt]. *)
Definition helloParams : jsval :=
  JObj [("path", JStr "hello.txt"); ("content", JStr "Hello World!")].

(** The operator types a space before the letter. *)
Definition worldSpaceY : World := scripted (fun _ => " y") noParser silentModel.

(** The operator approves everything. *)
Definition worldYes : World := scripted (fun _ => "Y") noParser silentModel.

(** The operator rejects everything. *)
Definition worldNo : World := scripted (fun _ => "n") noParser silentModel.

(** Two action blocks inside one element, and the document the parser
    makes of it (element names in lower case). *)
Definition twoBlocks : string :=
  "<Steps><list_file><path>src</path></list_file><complete><result>done</result></complete></Steps>".

Definition twoBlocksDoc : jsval :=
  JObj [("steps",
         JObj [("list_file", JObj [("path", JStr "src")]);
               ("complete", JObj [("result", JStr "done")])])].

Definition worldTwoBlocks : World :=
  scripted (fun _ => "n") (tableParser [(twoBlocks, twoBlocksDoc)]) silentModel.

(** One [read_file] block, with its tag in lower and in upper case. *)
Definition readLower : string := "<read_file><path>a.txt</path></read_file>".
Definition readUpper : string := "<READ_FILE><path>a.txt</path></READ_FILE>".

Definition readDoc : jsval := JObj [("read_file", JObj [("path", JStr "a.txt")])].

Definition worldReadFile : World :=
  scripted (fun _ => "n") (tableParser [(readLower, readDoc); (readUpper, readDoc)])
    silentModel.

(** A tool that does not exist, as an element with an end tag and as an
    empty-element tag. *)
Definition unknownPair : string := "<unknown_tool></unknown_tool>".
Definition unknownEmpty : string := "<unknown_tool/>".

Definition unknownDoc : jsval := JObj [("unknown_tool", JStr EmptyString)].

Definition worldUnknownTool : World :=
  scripted (fun _ => "n")
    (tableParser [(unknownPair, unknownDoc); (unknownEmpty, unknownDoc)])
    (scriptedModel [Ok (textResponse unknownPair); Ok (textResponse unknownEmpty)]).

Definition worldUnknownEmpty : World :=
  scripted (fun _ => "n") (tableParser [(unknownEmpty, unknownDoc)])
    (scriptedModel [Ok (textResponse unknownEmpty)]).

Definition unknownToolMessage : string :=
  "[unknown_tool Result] Failure:" ++ nl ++ "Unknown tool type: unknown_tool".

Definition noToolTagMessage : string :=
  "[Execution Result] Failure:" ++ nl
  ++ "No valid tool tag found in the cleaned response.".

(** The first response of the transport is blocked: its [text()] throws,
    naming the safety block. *)
Definition safetyFault : exn :=
  plainError "[GoogleGenerativeAI Error]: Candidate was blocked due to SAFETY".

Definition worldSafetyFault : World :=
  scripted (fun _ => "list the files") noParser
    (scriptedModel [Ok (mkResponse (Throw safetyFault) (Some "SAFETY"))]).

(** A model that never emits a tool: every answer is prose. *)
Definition worldProse : World :=
  scripted (fun _ => "list the files") noParser
    (fun _ _ => Ok (textResponse "I cannot help with that.")).

(** The model asks for the file of the scenario, then declares completion;
    the operator approves. *)
Definition helloBlock : string :=
  "<write_file><path>hello.txt</path><content>Hello World!</content></write_file>".

Definition doneBlock : string := "<complete><result>Done</result></complete>".

Definition worldHello : World :=
  scripted (fun prompt => if String.eqb prompt "Task: "
                          then "create hello.txt containing Hello World!"
                          else "y")
    (tableParser [(helloBlock, JObj [("write_file", helloParams)]);
                  (doneBlock, JObj [("complete", JObj [("result", JStr "Done")])])])
    (scriptedModel [Ok (textResponse ("```xml" ++ nl ++ helloBlock ++ nl ++ "```"));
                    Ok (textResponse doneBlock)]).

(** The transport answers the first call with no text and the block
    indicator SAFETY. *)
Definition worldBlocked : World :=
  scripted (fun _ => "list the files") noParser
    (scriptedModel [Ok (mkResponse (Ok EmptyString) (Some "SAFETY"))]).

(** The model writes prose for fourteen turns and declares completion on
    the fifteenth. *)
Definition worldLateComplete : World :=
  scripted (fun _ => "tidy up")
    (tableParser [(doneBlock, JObj [("complete", JObj [("result", JStr "Done")])])])
    (scriptedModel (repeat (Ok (textResponse "Let me think.")) 14
                    ++ [Ok (textResponse doneBlock)])%list).

(** A hundred characters, and two contents that share them. *)
Fixpoint repeatChar (c : ascii) (n : nat) : string :=
  match n with
  | 0 => EmptyString
  | S n' => String c (repeatChar c n')
  end.

Definition hundred : string := repeatChar "#" 100.

(** A directory of two files, listed from above the working directory. *)
Definition worldTwoFiles : World :=
  mkWorld
    (fun _ _ => Ok "n")
    (fun _ _ => DirEntries [("a.txt", None); ("b.txt", None)])
    (fun _ _ => Ok "text")
    (fun _ _ => Ok tt)
    (fun _ _ _ => Ok tt)
    (fun _ _ => Ok (EmptyString, EmptyString))
    noParser
    silentModel
    (fun dir name => dir ++ "/" ++ name)
    (fun _ => ".")
    (fun expr => plainError ("TypeError at " ++ expr)).

(** * Properties *)

(** ** The extractor on examples *)

Example clean_fenced :
  cleanResponse ("  ```XML" ++ nl ++ doneBlock ++ nl ++ "```" ++ nl) = doneBlock.
Proof. reflexivity. Qed.

Example clean_unfenced : cleanResponse (nl ++ doneBlock ++ "  ") = doneBlock.
Proof. reflexivity. Qed.

Example tag_of_block : Regex.toolNameRegex helloBlock = Some "write_file".
Proof. reflexivity. Qed.

Example tag_after_prose :
  Regex.toolNameRegex ("if a < b then <b>: " ++ doneBlock) = Some "b".
Proof. reflexivity. Qed.

Example tag_upper_case : Regex.toolNameRegex readUpper = Some "path".
Proof. reflexivity. Qed.

Example tag_empty_element : Regex.toolNameRegex unknownEmpty = None.
Proof. reflexivity. Qed.

Example tag_with_attribute :
  Regex.toolNameRegex "<complete id='1'><result>Done</result></complete>"
  = Some "result".
Proof. reflexivity. Qed.

(** ** Running computations *)

Lemma bind_ok {A B} (m : M A) (k : A -> M B) h a e1 :
  m h = (Ok a, e1) ->
  bind m k h = (fst (k a (h ++ e1)%list), (e1 ++ snd (k a (h ++ e1)%list))%list).
Proof.
  intros Hm. unfold bind. rewrite Hm. destruct (k a (h ++ e1)%list); reflexivity.
Qed.

Lemma bind_throw {A B} (m : M A) (k : A -> M B) h e e1 :
  m h = (Throw e, e1) -> bind m k h = (Throw e, e1).
Proof. intros Hm. unfold bind. rewrite Hm. reflexivity. Qed.

Lemma try_catch_ok {A} (m : M A) handler h a e1 :
  m h = (Ok a, e1) -> try_catch m handler h = (Ok a, e1).
Proof. intros Hm. unfold try_catch. rewrite Hm. reflexivity. Qed.

Lemma try_catch_throw {A} (m : M A) handler h e e1 :
  m h = (Throw e, e1) ->
  try_catch m handler h
  = (fst (handler e (h ++ e1)%list), (e1 ++ snd (handler e (h ++ e1)%list))%list).
Proof.
  intros Hm. unfold try_catch. rewrite Hm.
  destruct (handler e (h ++ e1)%list); reflexivity.
Qed.

(** ** Which events a computation can add *)

Section Only.

Variable P : event -> bool.

Lemma only_ret {A} (a : A) : only P (ret a).
Proof. intros h. reflexivity. Qed.

Lemma only_throw {A} e : only P (@throw A e).
Proof. intros h. reflexivity. Qed.

Lemma only_lift {A} (r : result A) : only P (lift r).
Proof. intros h. reflexivity. Qed.

Lemma only_request {A} (answer : trace -> result A) ev :
  P ev = true -> only P (request answer ev).
Proof. intros HP h. simpl. rewrite HP. reflexivity. Qed.

Lemma only_emit ev : P ev = true -> only P (emit ev).
Proof. intros HP h. simpl. rewrite HP. reflexivity. Qed.

Lemma only_bind {A B} (m : M A) (k : A -> M B) :
  only P m -> (forall a, only P (k a)) -> only P (bind m k).
Proof.
  intros Hm Hk h. specialize (Hm h). unfold bind.
  destruct (m h) as [[a | e] e1]; simpl in *; [| exact Hm].
  specialize (Hk a (h ++ e1)%list).
  destruct (k a (h ++ e1)%list) as [r e2]; simpl in *.
  rewrite forallb_app, Hm, Hk. reflexivity.
Qed.

Lemma only_try_catch {A} (m : M A) handler :
  only P m -> (forall e, only P (handler e)) -> only P (try_catch m handler).
Proof.
  intros Hm Hh h. specialize (Hm h). unfold try_catch.
  destruct (m h) as [[a | e] e1]; simpl in *; [exact Hm |].
  specialize (Hh e (h ++ e1)%list).
  destruct (handler e (h ++ e1)%list) as [r e2]; simpl in *.
  rewrite forallb_app, Hm, Hh. reflexivity.
Qed.

Lemma only_try_finally {A} (m : M A) f :
  only P m -> only P f -> only P (try_finally m f).
Proof.
  intros Hm Hf h. specialize (Hm h). unfold try_finally.
  destruct (m h) as [r e1]; simpl in *.
  specialize (Hf (h ++ e1)%list).
  destruct (f (h ++ e1)%list) as [u e2]; simpl in *.
  rewrite forallb_app, Hm, Hf. reflexivity.
Qed.

End Only.

Lemma only_weaken {A} (P Q : event -> bool) (m : M A) :
  (forall e, P e = true -> Q e = true) -> only P m -> only Q m.
Proof.
  intros HPQ Hm h. specialize (Hm h).
  rewrite forallb_forall in *. intros e He. apply HPQ, Hm, He.
Qed.

Lemma total_try_catch {A} (m : M A) handler :
  (forall e, total (handler e)) -> total (try_catch m handler).
Proof.
  intros Hh h. unfold try_catch.
  destruct (m h) as [[a | e] e1]; simpl.
  - exists a. reflexivity.
  - destruct (Hh e (h ++ e1)%list) as [a Ha].
    destruct (handler e (h ++ e1)%list) as [r e2]; simpl in *. exists a. exact Ha.
Qed.

Lemma total_ret {A} (a : A) : total (ret a).
Proof. intros h. exists a. reflexivity. Qed.

Ltac only_step :=
  first
    [ apply only_ret | apply only_throw | apply only_lift
    | apply only_request; reflexivity | apply only_emit; reflexivity
    | apply only_try_catch | apply only_bind | apply only_try_finally ].

Section ToolEvents.

Variable w : World.

Lemma only_member expr obj k : only isToolEvent (member w expr obj k).
Proof. unfold member. destruct (Js.nullish obj); only_step. Qed.

Lemma only_call_includes expr v sub : only isToolEvent (call_includes w expr v sub).
Proof. unfold call_includes. destruct v; only_step. Qed.

Lemma only_string_arg expr v : only isToolEvent (string_arg w expr v).
Proof. unfold string_arg. destruct v; only_step. Qed.

Lemma only_question prompt : only isToolEvent (question w prompt).
Proof. intros h. reflexivity. Qed.

Lemma only_askForUserApproval q : only isToolEvent (askForUserApproval w q).
Proof.
  unfold askForUserApproval. apply only_bind; [apply only_question |].
  intros a. only_step.
Qed.

Lemma only_readDirRecursive : forall found dir,
  only isToolEvent (readDirRecursive w dir found).
Proof.
  fix IH 1. intros [e | entries] dir; simpl.
  - repeat only_step.
  - apply only_bind; [only_step |]. intros _.
    induction entries as [| [name sub] rest IHrest]; [only_step |].
    apply only_bind.
    + destruct sub as [found' |]; [apply IH | only_step].
    + intros below. apply only_bind; [exact IHrest |]. intros after. only_step.
Qed.

Lemma only_readdir_names dir : only isToolEvent (readdir_names w dir).
Proof.
  intros h. unfold readdir_names. destruct (fs_readdir w h dir); reflexivity.
Qed.

Ltac only_tool :=
  repeat first
    [ apply only_member | apply only_call_includes | apply only_string_arg
    | apply only_question | apply only_askForUserApproval
    | apply only_readDirRecursive | apply only_readdir_names
    | only_step
    | match goal with
      | |- forall _, _ => intro
      | |- only _ (if ?b then _ else _) => destruct b
      | |- only _ (match ?v with _ => _ end) => destruct v
      end ].

Lemma only_listFile params : only isToolEvent (listFile w params).
Proof.
  unfold listFile. only_tool.
  intros h. apply only_readDirRecursive.
Qed.

Lemma only_readFile params : only isToolEvent (readFile w params).
Proof. unfold readFile. only_tool. Qed.

Lemma only_writeFile params : only isToolEvent (writeFile w params).
Proof. unfold writeFile. only_tool. Qed.

Lemma only_askQuestion params : only isToolEvent (askQuestion w params).
Proof. unfold askQuestion. only_tool. Qed.

Lemma only_executeCommand params : only isToolEvent (executeCommand w params).
Proof. unfold executeCommand. only_tool. Qed.

Lemma only_complete params : only isToolEvent (complete w params).
Proof. unfold complete. only_tool. Qed.

Lemma only_dispatch tool params handler :
  dispatch w tool params = Some handler -> only isToolEvent handler.
Proof.
  unfold dispatch. intros H.
  repeat match type of H with
         | (if ?b then _ else _) = _ => destruct b
         end;
    inversion H; subst;
    auto using only_listFile, only_readFile, only_writeFile, only_askQuestion,
      only_executeCommand, only_complete.
Qed.

(** The five handlers with a [try]/[catch] around their body return
    whatever [params] is; [complete] returns on any [params] the
    dispatcher passes (never [undefined] or [null]). *)
Lemma total_listFile params : total (listFile w params).
Proof. apply total_try_catch. intros e. apply total_ret. Qed.

Lemma total_readFile params : total (readFile w params).
Proof. apply total_try_catch. intros e. apply total_ret. Qed.

Lemma total_writeFile params : total (writeFile w params).
Proof. apply total_try_catch. intros e. apply total_ret. Qed.

Lemma total_askQuestion params : total (askQuestion w params).
Proof. apply total_try_catch. intros e. apply total_ret. Qed.

Lemma total_executeCommand params : total (executeCommand w params).
Proof. apply total_try_catch. intros e. apply total_ret. Qed.

Lemma total_complete params : Js.nullish params = false -> total (complete w params).
Proof.
  intros Hn h. unfold complete, member. rewrite Hn.
  eexists. reflexivity.
Qed.

Lemma total_parseAndExecuteTool llmResponse : total (parseAndExecuteTool w llmResponse).
Proof. apply total_try_catch. intros e. apply total_ret. Qed.

End ToolEvents.

(** ** The Approval Gate *)

Lemma lowerChar_y c : lowerChar c = "y"%char -> c = "y"%char \/ c = "Y"%char.
Proof.
  destruct c as [[] [] [] [] [] [] [] []]; vm_compute; intros H;
    solve [discriminate H | left; reflexivity | right; reflexivity].
Qed.

Lemma toLowerCase_y a :
  String.eqb (toLowerCase a) "y" = true <-> a = "y" \/ a = "Y".
Proof.
  rewrite String.eqb_eq. split.
  - destruct a as [| c [| c' a']]; simpl; intros H; try discriminate H.
    injection H as Hc. destruct (lowerChar_y c Hc); subst; auto.
  - intros [-> | ->]; reflexivity.
Qed.

Lemma askForUserApproval_run w q h :
  askForUserApproval w q h
  = (match rl_question w h (q ++ " [y/n]: ") with
     | Ok a => Ok (String.eqb (toLowerCase a) "y")
     | Throw e => Throw e
     end,
     [EvQuestion (q ++ " [y/n]: ") (rl_question w h (q ++ " [y/n]: "))]).
Proof.
  unfold askForUserApproval, bind, question, ret.
  destruct (rl_question w h (q ++ " [y/n]: ")); reflexivity.
Qed.

(** C4, as amended: the gate asks once, with [question [y/n]: ], and returns
    true exactly when the lower-cased answer is [y], that is when the
    operator typed [y] or [Y]; the answer is not trimmed, and there is no
    second prompt. *)
Theorem approval_gate_decides_on_lowercased_answer :
  forall (w : World) (q : string) (h : trace) (a : string),
    rl_question w h (q ++ " [y/n]: ") = Ok a ->
    askForUserApproval w q h
    = (Ok (String.eqb (toLowerCase a) "y"), [EvQuestion (q ++ " [y/n]: ") (Ok a)])
    /\ (String.eqb (toLowerCase a) "y" = true <-> a = "y" \/ a = "Y").
Proof.
  intros w q h a Ha. split.
  - rewrite askForUserApproval_run, Ha. reflexivity.
  - apply toLowerCase_y.
Qed.

Lemma approval_gate_witness :
  askForUserApproval worldYes "Proceed?" []
  = (Ok (String.eqb (toLowerCase "Y") "y"), [EvQuestion "Proceed? [y/n]: " (Ok "Y")])
  /\ (String.eqb (toLowerCase "Y") "y" = true <-> "Y" = "y" \/ "Y" = "Y").
Proof.
  apply (approval_gate_decides_on_lowercased_answer worldYes "Proceed?" [] "Y").
  reflexivity.
Defined.

(** C4, as stated, fails: the answer [ y] trims and lower-cases to [y], and
    the gate returns false. *)
Lemma approval_gate_does_not_trim :
  toLowerCase (trim " y") = "y"
  /\ fst (askForUserApproval worldSpaceY "Proceed?" []) = Ok false.
Proof. split; reflexivity. Qed.

(** ** Substrings *)

Lemma startsWith_spec p s :
  startsWith p s = true <-> exists post, s = p ++ post.
Proof.
  revert s. induction p as [| a p IH]; intros s; simpl.
  - split; [intros _; exists s; reflexivity | reflexivity].
  - destruct s as [| b s]; simpl.
    + split; [discriminate | intros [post H]; discriminate H].
    + rewrite andb_true_iff, Ascii.eqb_eq, IH. split.
      * intros [-> [post ->]]. exists post. reflexivity.
      * intros [post H]. injection H as -> ->. split; [reflexivity | eauto].
Qed.

Lemma includes_spec sub s :
  includes sub s = true <-> exists pre post, s = pre ++ sub ++ post.
Proof.
  induction s as [| c s IH]; simpl.
  - rewrite orb_false_r, startsWith_spec. split.
    + intros [post H]. exists EmptyString, post. exact H.
    + intros [[| c pre] [post H]]; [exists post; exact H | discriminate H].
  - rewrite orb_true_iff, startsWith_spec, IH. split.
    + intros [[post H] | [pre [post H]]].
      * exists EmptyString, post. exact H.
      * exists (String c pre), post. simpl. rewrite H. reflexivity.
    + intros [[| c' pre] [post H]].
      * left. exists post. exact H.
      * right. injection H as _ H. exists pre, post. exact H.
Qed.

(** ** Strings: append *)

Lemma append_nil_r s : s ++ EmptyString = s.
Proof. induction s as [| c s IH]; simpl; [reflexivity | rewrite IH; reflexivity]. Qed.

Lemma append_assoc a b c : (a ++ b) ++ c = a ++ b ++ c.
Proof. induction a as [| x a IH]; simpl; [reflexivity | rewrite IH; reflexivity]. Qed.

Lemma length_append a b :
  String.length (a ++ b) = String.length a + String.length b.
Proof. induction a as [| x a IH]; simpl; [reflexivity | rewrite IH; reflexivity]. Qed.

Lemma includes_part pre s post : includes s (pre ++ s ++ post) = true.
Proof. apply includes_spec. eauto. Qed.

Lemma includes_trans a b c :
  includes a b = true -> includes b c = true -> includes a c = true.
Proof.
  rewrite !includes_spec. intros (p1 & q1 & ->) (p2 & q2 & ->).
  exists (p2 ++ p1), (q1 ++ q2). rewrite !append_assoc. reflexivity.
Qed.

(** ** Trimming *)

Lemma trimStart_suffix s : exists pre, s = pre ++ trimStart s.
Proof.
  induction s as [| c s [pre IH]]; simpl.
  - exists EmptyString. reflexivity.
  - destruct (isWhitespace c).
    + exists (String c pre). simpl. rewrite <- IH. reflexivity.
    + exists EmptyString. reflexivity.
Qed.

Lemma trimEnd_prefix s : exists post, s = trimEnd s ++ post.
Proof.
  induction s as [| c s [post IH]].
  - exists EmptyString. reflexivity.
  - cbn [trimEnd]. destruct (allWhitespace (String c s)).
    + exists (String c s). reflexivity.
    + exists post. simpl. rewrite <- IH. reflexivity.
Qed.

Lemma allWhitespace_app a b :
  allWhitespace (a ++ b) = allWhitespace a && allWhitespace b.
Proof.
  induction a as [| c a IH]; simpl; [reflexivity |].
  rewrite IH, andb_assoc. reflexivity.
Qed.

Lemma allWhitespace_trimEnd s : allWhitespace (trimEnd s) = allWhitespace s.
Proof.
  induction s as [| c s IH]; [reflexivity |].
  cbn [trimEnd]. destruct (allWhitespace (String c s)) eqn:Hall; [reflexivity |].
  simpl in *. rewrite IH. exact Hall.
Qed.

Lemma trimEnd_allWhitespace s : allWhitespace s = true -> trimEnd s = EmptyString.
Proof. destruct s as [| c s]; [reflexivity |]. cbn [trimEnd]. intros ->. reflexivity. Qed.

Lemma trimEnd_idem s : trimEnd (trimEnd s) = trimEnd s.
Proof.
  induction s as [| c s IH]; [reflexivity |].
  cbn [trimEnd]. destruct (allWhitespace (String c s)) eqn:Hall; [reflexivity |].
  cbn [trimEnd].
  replace (allWhitespace (String c (trimEnd s))) with false.
  - rewrite IH. reflexivity.
  - simpl in *. rewrite allWhitespace_trimEnd. symmetry. exact Hall.
Qed.

(** A string that does not open with white space. *)
Lemma trimStart_fixed_iff s :
  trimStart s = s
  <-> match s with
      | EmptyString => True
      | String c _ => isWhitespace c = false
      end.
Proof.
  destruct s as [| c s]; simpl; [tauto |].
  destruct (isWhitespace c) eqn:Hc; [| tauto].
  split; [| discriminate]. intros H.
  destruct (trimStart_suffix s) as [pre Hpre].
  assert (Hlen : String.length (trimStart s) = S (String.length s))
    by (rewrite H; reflexivity).
  apply (f_equal String.length) in Hpre. rewrite length_append in Hpre. lia.
Qed.

Lemma trimStart_idem s : trimStart (trimStart s) = trimStart s.
Proof.
  induction s as [| c s IH]; simpl; [reflexivity |].
  destruct (isWhitespace c) eqn:Hc; [exact IH |]. simpl. rewrite Hc. reflexivity.
Qed.

Lemma trimStart_trimEnd s : trimStart s = s -> trimStart (trimEnd s) = trimEnd s.
Proof.
  rewrite !trimStart_fixed_iff. destruct s as [| c s]; [trivial |].
  intros Hc. cbn [trimEnd]. simpl. rewrite Hc. simpl. exact Hc.
Qed.

Lemma trim_idem s : trim (trim s) = trim s.
Proof.
  unfold trim. rewrite (trimStart_trimEnd (trimStart s)) by apply trimStart_idem.
  apply trimEnd_idem.
Qed.

Lemma trim_includes s : includes (trim s) s = true.
Proof.
  unfold trim. destruct (trimStart_suffix s) as [pre Hpre].
  destruct (trimEnd_prefix (trimStart s)) as [post Hpost].
  rewrite Hpre at 2. rewrite Hpost at 2. apply includes_part.
Qed.

Lemma trim_fixed s : trim s = s -> trimStart s = s /\ trimEnd s = s.
Proof.
  intros H.
  assert (Hs : trimStart s = s).
  { destruct (trimStart_suffix s) as [pre Hpre].
    destruct (trimEnd_prefix (trimStart s)) as [post Hpost].
    unfold trim in H. rewrite H in Hpost.
    assert (Hlen : String.length s = String.length pre + String.length (trimStart s))
      by (rewrite Hpre at 1; apply length_append).
    assert (Hlen' : String.length (trimStart s)
                    = String.length s + String.length post)
      by (rewrite Hpost at 1; apply length_append).
    destruct pre as [| c pre]; [symmetry; exact Hpre | simpl in Hlen; lia]. }
  split; [exact Hs |]. unfold trim in H. rewrite Hs in H. exact H.
Qed.

(** ** Cutting the fences *)

Lemma drop_suffix n s : exists pre, s = pre ++ drop n s.
Proof.
  revert s. induction n as [| n IH]; intros s; simpl.
  - exists EmptyString. reflexivity.
  - destruct s as [| c s].
    + exists EmptyString. reflexivity.
    + destruct (IH s) as [pre Hpre]. exists (String c pre). simpl.
      rewrite <- Hpre. reflexivity.
Qed.

Lemma stripFenceOpen_suffix s : exists pre, s = pre ++ Regex.stripFenceOpen s.
Proof.
  unfold Regex.stripFenceOpen.
  destruct (startsWith Regex.fence s); [| exists EmptyString; reflexivity].
  destruct (drop_suffix 3 s) as [p1 H1].
  set (r := drop 3 s) in *.
  destruct (String.eqb (toLowerCase (substring0 3 r)) "xml").
  - destruct (drop_suffix 3 r) as [p2 H2].
    destruct (trimStart_suffix (drop 3 r)) as [p3 H3].
    exists (p1 ++ p2 ++ p3). rewrite !append_assoc, <- H3, <- H2. exact H1.
  - destruct (trimStart_suffix r) as [p3 H3].
    exists (p1 ++ p3). rewrite append_assoc, <- H3. exact H1.
Qed.

Lemma stripFenceClose_prefix s : exists post, s = Regex.stripFenceClose s ++ post.
Proof.
  induction s as [| c s [post IH]].
  - exists EmptyString. reflexivity.
  - cbn [Regex.stripFenceClose].
    destruct (startsWith Regex.fence (String c s) && allWhitespace (drop 3 (String c s))).
    + exists (String c s). reflexivity.
    + exists post. simpl. rewrite <- IH. reflexivity.
Qed.

Lemma suffix_includes pre s : includes s (pre ++ s) = true.
Proof.
  rewrite <- (append_nil_r s) at 2. apply includes_part.
Qed.

Lemma prefix_includes s post : includes s (s ++ post) = true.
Proof. apply (includes_part EmptyString). Qed.

Lemma cleanResponse_includes s : includes (cleanResponse s) s = true.
Proof.
  unfold cleanResponse.
  eapply includes_trans; [apply trim_includes |].
  eapply includes_trans; [| apply trim_includes].
  destruct (stripFenceOpen_suffix (trim s)) as [pre Hpre].
  destruct (stripFenceClose_prefix (Regex.stripFenceOpen (trim s))) as [post Hpost].
  rewrite Hpre at 2. rewrite Hpost at 2. apply includes_part.
Qed.

Lemma trimStart_app b x :
  trimStart b = b -> b <> EmptyString -> trimStart (b ++ x) = b ++ x.
Proof.
  rewrite trimStart_fixed_iff. destruct b as [| c b]; [congruence |].
  intros Hc _. simpl. rewrite Hc. reflexivity.
Qed.

Lemma trimEnd_fixed_nonempty b :
  trimEnd b = b -> b <> EmptyString -> allWhitespace b = false.
Proof.
  intros Hb Hne. destruct (allWhitespace b) eqn:Hall; [| reflexivity].
  rewrite trimEnd_allWhitespace in Hb by exact Hall. congruence.
Qed.

Lemma trimEnd_app_fixed a b :
  trimEnd b = b -> b <> EmptyString -> trimEnd (a ++ b) = a ++ b.
Proof.
  intros Hb Hne. pose proof (trimEnd_fixed_nonempty b Hb Hne) as Hall.
  induction a as [| c a IH]; [exact Hb |].
  change (String c a ++ b) with (String c (a ++ b)). cbn [trimEnd].
  replace (allWhitespace (String c (a ++ b))) with false.
  - rewrite IH. reflexivity.
  - simpl. rewrite allWhitespace_app, Hall, !andb_false_r. reflexivity.
Qed.

Lemma trimEnd_app_whitespace b t :
  trimEnd b = b -> allWhitespace t = true -> trimEnd (b ++ t) = b.
Proof.
  intros Hb Ht. induction b as [| c b IH].
  - apply trimEnd_allWhitespace. exact Ht.
  - assert (Hall : allWhitespace (String c b) = false)
      by (apply trimEnd_fixed_nonempty; [exact Hb | discriminate]).
    cbn [trimEnd] in Hb. rewrite Hall in Hb. injection Hb as Hb.
    change (String c b ++ t) with (String c (b ++ t)). cbn [trimEnd].
    replace (allWhitespace (String c (b ++ t))) with false.
    + rewrite IH by exact Hb. reflexivity.
    + simpl in *. rewrite allWhitespace_app, Ht, andb_true_r. symmetry. exact Hall.
Qed.

Lemma substring0_app a b : substring0 (String.length a) (a ++ b) = a.
Proof.
  unfold substring0. induction a as [| c a IH]; simpl.
  - destruct b; reflexivity.
  - rewrite IH. reflexivity.
Qed.

Lemma drop_app a b : drop (String.length a) (a ++ b) = b.
Proof. induction a as [| c a IH]; simpl; [reflexivity | exact IH]. Qed.

Lemma toLowerCase_length s : String.length (toLowerCase s) = String.length s.
Proof. induction s as [| c s IH]; simpl; [reflexivity | rewrite IH; reflexivity]. Qed.

Lemma includes_cons sub c s :
  includes sub (String c s) = startsWith sub (String c s) || includes sub s.
Proof. reflexivity. Qed.

Lemma includes_startsWith sub s : includes sub s = false -> startsWith sub s = false.
Proof.
  destruct s as [| c s]; simpl; intros H; apply orb_false_iff in H; tauto.
Qed.

(** A text without a fence does not begin one that the closing fence of
    the next line would complete. *)
Lemma startsWith_fence_app b :
  includes Regex.fence b = false ->
  startsWith Regex.fence (b ++ nl ++ Regex.fence) = false.
Proof.
  intros H. apply includes_startsWith in H.
  unfold Regex.fence, nl, chr in *.
  destruct b as [| c1 [| c2 [| c3 b]]]; cbn [startsWith String.append] in *.
  - reflexivity.
  - destruct (Ascii.eqb "`" c1); reflexivity.
  - destruct (Ascii.eqb "`" c1); [| reflexivity].
    destruct (Ascii.eqb "`" c2); reflexivity.
  - exact H.
Qed.

Lemma stripFenceClose_no_fence b :
  includes Regex.fence b = false -> Regex.stripFenceClose b = b.
Proof.
  induction b as [| c b IH]; [reflexivity |].
  rewrite includes_cons. intros H. apply orb_false_iff in H. destruct H as [Hs Hi].
  cbn [Regex.stripFenceClose]. rewrite Hs. simpl. rewrite IH by exact Hi. reflexivity.
Qed.

Lemma stripFenceClose_last_line b :
  includes Regex.fence b = false ->
  Regex.stripFenceClose (b ++ nl ++ Regex.fence) = b ++ nl.
Proof.
  induction b as [| c b IH]; [reflexivity |].
  intros H. pose proof (startsWith_fence_app _ H) as Hs.
  rewrite includes_cons in H. apply orb_false_iff in H. destruct H as [_ Hi].
  change (String c b ++ nl ++ Regex.fence) with (String c (b ++ nl ++ Regex.fence)) in *.
  cbn [Regex.stripFenceClose]. rewrite Hs. cbn [andb String.append].
  rewrite IH by exact Hi. reflexivity.
Qed.

Lemma stripFenceOpen_no_fence b :
  includes Regex.fence b = false -> Regex.stripFenceOpen b = b.
Proof.
  intros H. unfold Regex.stripFenceOpen.
  rewrite (includes_startsWith _ _ H). reflexivity.
Qed.

Lemma stripFenceOpen_first_line lang rest :
  lang = EmptyString \/ toLowerCase lang = "xml" ->
  Regex.stripFenceOpen (Regex.fence ++ lang ++ nl ++ rest) = trimStart rest.
Proof.
  intros Hlang. unfold Regex.stripFenceOpen.
  change (startsWith Regex.fence (Regex.fence ++ lang ++ nl ++ rest)) with true.
  change (drop 3 (Regex.fence ++ lang ++ nl ++ rest)) with (lang ++ nl ++ rest).
  cbv iota. destruct Hlang as [-> | Hxml].
  - reflexivity.
  - assert (Hlen : String.length lang = 3)
      by (rewrite <- toLowerCase_length, Hxml; reflexivity).
    rewrite <- Hlen, substring0_app, Hxml, drop_app. reflexivity.
Qed.

Lemma cleanResponse_plain body :
  trim body = body -> includes Regex.fence body = false -> cleanResponse body = body.
Proof.
  intros Ht Hf. unfold cleanResponse.
  rewrite Ht, stripFenceOpen_no_fence, stripFenceClose_no_fence by exact Hf.
  exact Ht.
Qed.

Lemma cleanResponse_fenced lang body :
  lang = EmptyString \/ toLowerCase lang = "xml" ->
  trim body = body -> includes Regex.fence body = false ->
  cleanResponse (Regex.fence ++ lang ++ nl ++ body ++ nl ++ Regex.fence) = body.
Proof.
  intros Hlang Ht Hf. destruct (trim_fixed body Ht) as [Hstart Hend].
  unfold cleanResponse.
  assert (Htrim : trim (Regex.fence ++ lang ++ nl ++ body ++ nl ++ Regex.fence)
                  = Regex.fence ++ lang ++ nl ++ body ++ nl ++ Regex.fence).
  { unfold trim. change (trimStart (Regex.fence ++ ?x)) with (Regex.fence ++ x).
    rewrite <- !append_assoc. apply trimEnd_app_fixed; [reflexivity | discriminate]. }
  rewrite Htrim, stripFenceOpen_first_line by exact Hlang.
  destruct (String.eqb_spec body EmptyString) as [-> | Hne]; [reflexivity |].
  rewrite trimStart_app by assumption.
  rewrite stripFenceClose_last_line by exact Hf.
  unfold trim. rewrite trimStart_app by assumption.
  apply trimEnd_app_whitespace; [exact Hend | reflexivity].
Qed.

(** ** The pattern of the opening tag *)

Lemma nameRun_spec s :
  s = fst (Regex.nameRun s) ++ snd (Regex.nameRun s)
  /\ allNameChars (fst (Regex.nameRun s)) = true
  /\ match snd (Regex.nameRun s) with
     | EmptyString => True
     | String c _ => Regex.isNameChar c = false
     end.
Proof.
  induction s as [| c s (IH1 & IH2 & IH3)]; [simpl; auto |].
  cbn [Regex.nameRun]. destruct (Regex.isNameChar c) eqn:Hc.
  - destruct (Regex.nameRun s) as [name rest]. cbn [fst snd] in *.
    cbn [String.append allNameChars]. rewrite Hc, IH2, <- IH1. auto.
  - cbn [fst snd String.append allNameChars]. auto.
Qed.

Lemma nameRun_stops name c x :
  allNameChars name = true -> Regex.isNameChar c = false ->
  Regex.nameRun (name ++ String c x) = (name, String c x).
Proof.
  intros Hname Hc. induction name as [| d name IH]; cbn [String.append Regex.nameRun].
  - rewrite Hc. reflexivity.
  - cbn [allNameChars] in Hname. apply andb_true_iff in Hname. destruct Hname as [Hd Hname].
    rewrite Hd, IH by exact Hname. reflexivity.
Qed.

Lemma nameRun_before a c x :
  Regex.isNameChar c = false ->
  Regex.nameRun (a ++ String c x)
  = (fst (Regex.nameRun a), snd (Regex.nameRun a) ++ String c x).
Proof.
  intros Hc. induction a as [| d a IH]; cbn [String.append Regex.nameRun].
  - rewrite Hc. reflexivity.
  - destruct (Regex.isNameChar d); [| reflexivity].
    rewrite IH. destruct (Regex.nameRun a). reflexivity.
Qed.

Lemma startsWith_app p r y : startsWith p r = true -> startsWith p (r ++ y) = true.
Proof.
  rewrite !startsWith_spec. intros [post ->]. exists (post ++ y).
  apply append_assoc.
Qed.

Lemma toolNameRegex_cons c s :
  Regex.toolNameRegex (String c s)
  = if Ascii.eqb c "<"%char then
      let '(name, rest) := Regex.nameRun s in
      if negb (String.eqb name EmptyString) && startsWith ">" rest
      then Some name
      else Regex.toolNameRegex s
    else Regex.toolNameRegex s.
Proof. reflexivity. Qed.

(** The match is an occurrence of [<name>] with a name of the pattern, and
    no match lies before it. *)
Lemma toolNameRegex_sound s name :
  Regex.toolNameRegex s = Some name ->
  name <> EmptyString /\ allNameChars name = true
  /\ exists pre post,
       s = pre ++ "<" ++ name ++ ">" ++ post /\ Regex.toolNameRegex pre = None.
Proof.
  induction s as [| c s IH]; [discriminate |].
  rewrite toolNameRegex_cons.
  destruct (Ascii.eqb_spec c "<"%char) as [-> | Hc].
  - destruct (nameRun_spec s) as (Hs & Hname & _).
    destruct (Regex.nameRun s) as [n rest] eqn:Hrun. cbn [fst snd] in *.
    destruct (negb (String.eqb n EmptyString) && startsWith ">" rest) eqn:Hcond.
    + intros H. injection H as <-.
      apply andb_true_iff in Hcond. destruct Hcond as [Hne Hgt].
      apply negb_true_iff, String.eqb_neq in Hne.
      apply startsWith_spec in Hgt. destruct Hgt as [post ->].
      repeat split; auto. exists EmptyString, post. split; [| reflexivity].
      simpl. rewrite Hs. reflexivity.
    + intros H. destruct (IH H) as (Hne & Hall & pre & post & Hpre & Hnone).
      repeat split; auto. exists (String "<" pre), post. split.
      { simpl. rewrite Hpre. reflexivity. }
      rewrite toolNameRegex_cons. change (Ascii.eqb "<" "<") with true. cbv iota.
      assert (Hrun' : Regex.nameRun s
                      = (fst (Regex.nameRun pre),
                         snd (Regex.nameRun pre) ++ String "<" (name ++ ">" ++ post))).
      { rewrite Hpre at 1. apply nameRun_before. reflexivity. }
      rewrite Hrun in Hrun'. injection Hrun' as Hn Hrest.
      destruct (Regex.nameRun pre) as [n' rest']. cbn [fst snd] in *. subst n'.
      destruct (negb (String.eqb n EmptyString)) eqn:Hnn; [| exact Hnone].
      destruct (startsWith ">" rest') eqn:Hgt; [| exact Hnone].
      subst rest. rewrite (startsWith_app _ _ _ Hgt) in Hcond. discriminate Hcond.
  - apply Ascii.eqb_neq in Hc. intros H.
    destruct (IH H) as (Hne & Hall & pre & post & Hpre & Hnone).
    repeat split; auto. exists (String c pre), post. split.
    + simpl. rewrite Hpre. reflexivity.
    + rewrite toolNameRegex_cons, Hc. exact Hnone.
Qed.

(** Where a tag of the pattern occurs, there is a match. *)
Lemma toolNameRegex_complete pre name post :
  name <> EmptyString -> allNameChars name = true ->
  exists n, Regex.toolNameRegex (pre ++ "<" ++ name ++ ">" ++ post) = Some n.
Proof.
  intros Hne Hall. induction pre as [| c pre [n IH]].
  - change (EmptyString ++ "<" ++ name ++ ">" ++ post)
      with (String "<" (name ++ String ">" post)).
    rewrite toolNameRegex_cons. change (Ascii.eqb "<" "<") with true. cbv iota.
    rewrite nameRun_stops by (auto; reflexivity).
    apply String.eqb_neq in Hne. rewrite Hne. simpl. eauto.
  - change (String c pre ++ "<" ++ name ++ ">" ++ post)
      with (String c (pre ++ "<" ++ name ++ ">" ++ post)).
    rewrite toolNameRegex_cons.
    destruct (Ascii.eqb c "<"); [| eauto].
    destruct (Regex.nameRun _) as [n' rest'].
    destruct (negb (String.eqb n' EmptyString) && startsWith ">" rest'); eauto.
Qed.

(** ** Write and execute behind the gate *)

#[local] Arguments String.append : simpl never.
#[local] Arguments String.eqb : simpl never.
#[local] Arguments includes : simpl never.
#[local] Arguments toLowerCase : simpl never.
#[local] Arguments writeConfirmation : simpl never.
#[local] Arguments executeConfirmation : simpl never.

Ltac run_handler :=
  unfold try_catch, bind, member, call_includes, string_arg, request, question,
    ret, throw, lift, emit;
  simpl.

Ltac plain x :=
  lazymatch x with
  | context [match _ with _ => _ end] => fail
  | _ => idtac
  end.

(** Case analysis on every test the computation makes, innermost first. *)
Ltac crunch :=
  repeat (simpl;
          match goal with
          | |- context [match ?x with _ => _ end] => plain x; destruct x eqn:?
          end);
  simpl.

Ltac gate_finish :=
  match goal with
  | |- exists _ _ _, _ =>
      do 3 eexists; split; [reflexivity | split; [reflexivity |]]; simpl;
      match goal with
      | H : negb _ = false |- _ => apply negb_false_iff in H; rewrite H; reflexivity
      end
  | |- exists _ _, _ =>
      do 2 eexists; split; [reflexivity |]; simpl;
      match goal with
      | H : negb _ = false |- _ => apply negb_false_iff in H; rewrite H; reflexivity
      end
  | Hevs : _ = ?ev :: _, Hgate : gateOutcome ?ev = _ |- _ =>
      injection Hevs as <- <-; simpl in Hgate; try discriminate Hgate;
      injection Hgate as _ Hb;
      first [ split; reflexivity
            | match goal with
              | H : negb _ = false |- _ => apply negb_false_iff in H; congruence
              end ]
  end.

Lemma writeFile_gated w params h :
  let '(r, evs) := writeFile w params h in
  (existsb isSideEffect evs = true ->
   exists content e rest,
     Js.prop params "content" = JStr content /\ evs = e :: rest /\
     gateOutcome e
     = Some (writeConfirmation (Js.prop params "path") content ++ " [y/n]: ", true))
  /\ (forall e rest p,
        evs = e :: rest -> gateOutcome e = Some (p, false) ->
        r = Ok cancelledWrite /\ rest = []).
Proof.
  unfold writeFile, askForUserApproval. run_handler. crunch.
  all: split;
    [ intros Hside; try discriminate Hside
    | intros ev rest pr Hevs Hgate; try discriminate Hevs ].
  all: gate_finish.
Qed.

Lemma executeCommand_gated w params h :
  let '(r, evs) := executeCommand w params h in
  (existsb isSideEffect evs = true ->
   exists e rest,
     evs = e :: rest /\
     gateOutcome e
     = Some (executeConfirmation (Js.prop params "command") ++ " [y/n]: ", true))
  /\ (forall e rest p,
        evs = e :: rest -> gateOutcome e = Some (p, false) ->
        r = Ok cancelledCommand /\ rest = []).
Proof.
  unfold executeCommand, askForUserApproval. run_handler. crunch.
  all: split;
    [ intros Hside; try discriminate Hside
    | intros ev rest pr Hevs Hgate; try discriminate Hevs ].
  all: gate_finish.
Qed.

(** C1: a directory creation, file write or command spawn among the events
    of [writeFile] or [executeCommand] comes after the Approval Gate was
    asked, with the confirmation rendered for this very invocation, and
    returned true; when the gate returns false the handler returns the
    "cancelled by user" failure and the prompt was its only event. *)
Theorem write_and_execute_need_approval :
  forall (w : World) (params : jsval) (h : trace),
    (let '(r, evs) := writeFile w params h in
     (existsb isSideEffect evs = true ->
      exists content e rest,
        Js.prop params "content" = JStr content /\ evs = e :: rest /\
        gateOutcome e
        = Some (writeConfirmation (Js.prop params "path") content ++ " [y/n]: ", true))
     /\ (forall e rest p,
           evs = e :: rest -> gateOutcome e = Some (p, false) ->
           r = Ok cancelledWrite /\ rest = []))
    /\
    (let '(r, evs) := executeCommand w params h in
     (existsb isSideEffect evs = true ->
      exists e rest,
        evs = e :: rest /\
        gateOutcome e
        = Some (executeConfirmation (Js.prop params "command") ++ " [y/n]: ", true))
     /\ (forall e rest p,
           evs = e :: rest -> gateOutcome e = Some (p, false) ->
           r = Ok cancelledCommand /\ rest = [])).
Proof.
  intros w params h. split.
  - apply writeFile_gated.
  - apply executeCommand_gated.
Qed.

(** ** Path traversal *)

Lemma prop_not_nullish params k v :
  Js.prop params k = v -> v <> JUndefined -> Js.nullish params = false.
Proof. destruct params; simpl; intros <- Hv; congruence. Qed.

(** C2: a path with [..] anywhere in it, [../etc/passwd] for one, makes
    [readFile] and [writeFile] return the traversal rejection without any
    event: no read, no prompt, no directory made, no write. *)
Theorem traversal_is_rejected_before_any_io :
  forall (w : World) (params : jsval) (pre post : string) (h : trace),
    Js.prop params "path" = JStr (pre ++ ".." ++ post) ->
    readFile w params h = (Ok traversalRejected, [])
    /\ writeFile w params h = (Ok traversalRejected, []).
Proof.
  intros w params pre post h Hpath.
  assert (Hn : Js.nullish params = false)
    by (eapply prop_not_nullish; [exact Hpath | discriminate]).
  assert (Hinc : includes ".." (pre ++ ".." ++ post) = true)
    by (apply includes_spec; eauto).
  unfold readFile, writeFile. run_handler.
  rewrite Hn. simpl. rewrite Hpath. simpl. rewrite Hinc. simpl.
  split; reflexivity.
Qed.

Lemma traversal_witness :
  readFile worldYes (JObj [("path", JStr "../etc/passwd")]) []
  = (Ok traversalRejected, [])
  /\ writeFile worldYes (JObj [("path", JStr "../etc/passwd")]) []
     = (Ok traversalRejected, []).
Proof.
  apply (traversal_is_rejected_before_any_io worldYes
           (JObj [("path", JStr "../etc/passwd")]) EmptyString "/etc/passwd" []).
  reflexivity.
Defined.

(** ** The parameter [requires_approval] *)

Lemma executeCommand_reads_command w p1 p2 h :
  Js.nullish p1 = false -> Js.nullish p2 = false ->
  Js.prop p1 "command" = Js.prop p2 "command" ->
  executeCommand w p1 h = executeCommand w p2 h.
Proof.
  intros H1 H2 Hc. unfold executeCommand, member.
  rewrite H1, H2, Hc. reflexivity.
Qed.

Lemma executeCommand_first_event w params h :
  Js.nullish params = false ->
  exists rest,
    snd (executeCommand w params h)
    = EvQuestion (executeConfirmation (Js.prop params "command") ++ " [y/n]: ")
        (rl_question w h
           (executeConfirmation (Js.prop params "command") ++ " [y/n]: "))
      :: rest.
Proof.
  intros Hn. unfold executeCommand, askForUserApproval. run_handler.
  rewrite Hn. simpl. rewrite !app_nil_r.
  crunch; eexists; reflexivity.
Qed.

(** C10: [executeCommand] opens with the approval prompt for the command
    on every [params] the dispatcher can pass, and two [params] with the
    same [command] run alike: [requires_approval], present or absent, true
    or false, is not read. *)
Theorem execute_prompts_whatever_requires_approval :
  forall (w : World) (params params' : jsval) (h : trace),
    Js.nullish params = false ->
    Js.nullish params' = false ->
    Js.prop params' "command" = Js.prop params "command" ->
    executeCommand w params' h = executeCommand w params h
    /\ exists rest,
         snd (executeCommand w params' h)
         = EvQuestion (executeConfirmation (Js.prop params "command") ++ " [y/n]: ")
             (rl_question w h
                (executeConfirmation (Js.prop params "command") ++ " [y/n]: "))
           :: rest.
Proof.
  intros w params params' h Hn Hn' Hc. split.
  - apply executeCommand_reads_command; assumption.
  - rewrite <- Hc. apply executeCommand_first_event. exact Hn'.
Qed.

Lemma execute_prompts_witness :
  executeCommand worldNo
    (JObj [("command", JStr "rm -rf build"); ("requires_approval", JStr "false")]) []
  = executeCommand worldNo (JObj [("command", JStr "rm -rf build")]) []
  /\ exists rest,
       snd (executeCommand worldNo
              (JObj [("command", JStr "rm -rf build");
                     ("requires_approval", JStr "false")]) [])
       = EvQuestion (executeConfirmation (JStr "rm -rf build") ++ " [y/n]: ")
           (rl_question worldNo []
              (executeConfirmation (JStr "rm -rf build") ++ " [y/n]: "))
         :: rest.
Proof.
  apply (execute_prompts_whatever_requires_approval worldNo
           (JObj [("command", JStr "rm -rf build")])
           (JObj [("command", JStr "rm -rf build"); ("requires_approval", JStr "false")])
           []); reflexivity.
Defined.

(** ** Absent parameters *)

Lemma readFile_without_path w params h :
  Js.nullish params = false -> Js.prop params "path" = JUndefined ->
  readFile w params h
  = (Ok (mkToolResponse false
           ("Failed to read file: " ++ err_message (typeError w "params.path.includes"))),
     []).
Proof.
  intros Hn Hp. unfold readFile. run_handler. rewrite Hn. simpl. rewrite Hp. reflexivity.
Qed.

Lemma writeFile_without_path w params h :
  Js.nullish params = false -> Js.prop params "path" = JUndefined ->
  writeFile w params h
  = (Ok (mkToolResponse false
           ("Failed to write file: " ++ err_message (typeError w "params.path.includes"))),
     []).
Proof.
  intros Hn Hp. unfold writeFile. run_handler. rewrite Hn. simpl. rewrite Hp. reflexivity.
Qed.

Lemma writeFile_without_content w params h :
  Js.nullish params = false -> Js.prop params "content" = JUndefined ->
  exists r, writeFile w params h = (Ok r, []) /\ success r = false.
Proof.
  intros Hn Hc. unfold writeFile. run_handler. rewrite Hn, Hc. crunch;
    eexists; split; reflexivity.
Qed.

Lemma executeCommand_without_command w params h :
  Js.nullish params = false -> Js.prop params "command" = JUndefined ->
  exists r evs,
    executeCommand w params h = (Ok r, evs)
    /\ success r = false /\ existsb isSideEffect evs = false.
Proof.
  intros Hn Hc. unfold executeCommand, askForUserApproval. run_handler.
  rewrite Hn, Hc. crunch; do 2 eexists; repeat split; reflexivity.
Qed.

Lemma askQuestion_without_question w params h a :
  Js.nullish params = false -> Js.prop params "question" = JUndefined ->
  rl_question w h (nl ++ "Question: undefined" ++ nl ++ "Answer: ") = Ok a ->
  askQuestion w params h
  = (Ok (mkToolResponse true ("User answer: " ++ a)),
     [EvQuestion (nl ++ "Question: undefined" ++ nl ++ "Answer: ") (Ok a)]).
Proof.
  intros Hn Hq Ha. unfold askQuestion. run_handler.
  rewrite Hn, Hq. simpl. rewrite !app_nil_r.
  change (nl ++ "Question: " ++ "undefined" ++ nl ++ "Answer: ")
    with (nl ++ "Question: undefined" ++ nl ++ "Answer: ").
  rewrite Ha. reflexivity.
Qed.

Lemma complete_without_result w params h :
  Js.nullish params = false -> Js.prop params "result" = JUndefined ->
  complete w params h = (Ok (mkToolResponse true "Task completed: undefined"), []).
Proof.
  intros Hn Hr. unfold complete. run_handler. rewrite Hn, Hr. reflexivity.
Qed.

Lemma listFile_without_path w params h entries :
  Js.nullish params = false ->
  Js.prop params "path" = JUndefined -> Js.prop params "recursive" = JUndefined ->
  fs_readdir w h "." = DirEntries entries ->
  listFile w params h
  = (Ok (mkToolResponse true
           ("Directory . listing:" ++ nl
            ++ join nl (map (fun f => "- " ++ f)
                          (map (path_join w ".") (map fst entries))))),
     [EvReaddir "."]).
Proof.
  intros Hn Hp Hr Hd. unfold listFile, readdir_names. run_handler.
  rewrite Hn, Hp, Hr. simpl. rewrite !app_nil_r, Hd. reflexivity.
Qed.

(** ** One response, one handler *)

Lemma truthy_not_nullish v : Js.nullish (if Js.truthy v then v else JObj []) = false.
Proof. destruct v as [| | [|] | |]; reflexivity. Qed.

Lemma total_dispatch w tool params handler :
  Js.nullish params = false ->
  dispatch w tool params = Some handler -> total handler.
Proof.
  unfold dispatch. intros Hn H.
  repeat match type of H with
         | (if ?b then _ else _) = _ => destruct b
         end;
    inversion H; subst;
    auto using total_listFile, total_readFile, total_writeFile, total_askQuestion,
      total_executeCommand, total_complete.
Qed.

Lemma toolEvent_not_invoke evs :
  forallb isToolEvent evs = true -> filter isInvoke evs = [].
Proof.
  induction evs as [| e evs IH]; simpl; [reflexivity |].
  rewrite andb_true_iff. intros [He Hevs].
  destruct e; simpl in *; try discriminate He; auto.
Qed.

Lemma toolEvent_not_modelCall evs :
  forallb isToolEvent evs = true -> filter isModelCall evs = [].
Proof.
  induction evs as [| e evs IH]; simpl; [reflexivity |].
  rewrite andb_true_iff. intros [He Hevs].
  destruct e; simpl in *; try discriminate He; auto.
Qed.

(** The two ways [parseAndExecuteTool] can go: no handler and no event, or
    the handler the first opening tag names, announced by [EvInvoke] and
    followed by the handler's own events. *)
Lemma parseAndExecuteTool_shape w llmResponse h :
  exists pr evs,
    parseAndExecuteTool w llmResponse h = (Ok pr, evs)
    /\ ((evs = [] /\ success (response pr) = false /\ isComplete pr = false
         /\ (toolType pr = None
             \/ exists t, toolType pr = Some t
                          /\ Regex.toolNameRegex (cleanResponse llmResponse) = Some t
                          /\ isToolName t = false))
        \/ exists t rest,
             evs = EvInvoke t :: rest
             /\ forallb isToolEvent rest = true
             /\ Regex.toolNameRegex (cleanResponse llmResponse) = Some t
             /\ isToolName t = true
             /\ toolType pr = Some t
             /\ isComplete pr = String.eqb t ToolType.Complete).
Proof.
  unfold parseAndExecuteTool.
  destruct (String.eqb (cleanResponse llmResponse) EmptyString) eqn:Hempty.
  { do 2 eexists. split; [reflexivity |]. left. simpl. auto. }
  destruct (Regex.toolNameRegex (cleanResponse llmResponse)) as [tool |] eqn:Htag.
  2: { do 2 eexists. split; [reflexivity |]. left. simpl. auto. }
  unfold try_catch at 1, bind at 1, lift.
  destruct (parseStringPromise w (cleanResponse llmResponse)) as [parsedXml | e].
  2: { do 2 eexists. split; [reflexivity |]. left. simpl. auto. }
  unfold bind at 1, member.
  destruct (Js.nullish parsedXml).
  { do 2 eexists. split; [reflexivity |]. left. simpl. auto. }
  unfold ret at 1.
  set (params := if Js.truthy (Js.prop parsedXml tool) then Js.prop parsedXml tool
                 else JObj []).
  assert (Hparams : Js.nullish params = false) by apply truthy_not_nullish.
  destruct (dispatch w tool params) as [handler |] eqn:Hd.
  2: { do 2 eexists. split; [reflexivity |]. left. simpl.
       repeat split; auto. right. exists tool. repeat split; auto.
       unfold dispatch in Hd. unfold isToolName. simpl.
       repeat match type of Hd with
              | (if ?b then _ else _) = _ => destruct b; [discriminate Hd |]
              end.
       reflexivity. }
  pose proof (total_dispatch w tool params handler Hparams Hd) as Htot.
  pose proof (only_dispatch w tool params handler Hd) as Honly.
  unfold bind, emit, ret. simpl.
  match goal with
  | |- context [handler ?h'] =>
      specialize (Htot h'); specialize (Honly h'); destruct (handler h') as [r evs]
  end.
  destruct Htot as [a Ha]. simpl in Ha, Honly. subst r. simpl.
  do 2 eexists. split; [reflexivity |]. right.
  exists tool, (evs ++ [])%list. rewrite app_nil_r. simpl.
  repeat split; auto.
  unfold dispatch in Hd. unfold isToolName. simpl.
  repeat match type of Hd with
         | (if ?b then _ else _) = _ => destruct b; [reflexivity |]
         end.
  discriminate Hd.
Qed.

Lemma invocations_tool_events evs :
  forallb isToolEvent evs = true -> invocations evs = 0.
Proof. intros H. unfold invocations. rewrite toolEvent_not_invoke; auto. Qed.

(** C5, as amended: a response never runs more than one handler, and the
    handler it runs is the one its first opening tag names; with no opening
    tag, or with a text the markup parser rejects, the result is a decode
    failure and nothing ran.  Nothing counts the action blocks. *)
Theorem at_most_one_handler_named_by_first_tag :
  forall (w : World) (llmResponse : string) (h : trace),
    exists pr evs,
      parseAndExecuteTool w llmResponse h = (Ok pr, evs)
      /\ invocations evs <= 1
      /\ (forall t, In (EvInvoke t) evs ->
                    Regex.toolNameRegex (cleanResponse llmResponse) = Some t
                    /\ toolType pr = Some t)
      /\ (Regex.toolNameRegex (cleanResponse llmResponse) = None ->
          evs = [] /\ decodeFailure pr)
      /\ (forall e, parseStringPromise w (cleanResponse llmResponse) = Throw e ->
                    evs = [] /\ decodeFailure pr).
Proof.
  intros w llmResponse h.
  destruct (parseAndExecuteTool_shape w llmResponse h)
    as (pr & evs & Hrun & [(-> & Hs & Hc & Htype) | (t & rest & -> & Hrest & Htag & Hname & Htype & Hc)]).
  - exists pr, []. split; [exact Hrun |]. split; [unfold invocations; simpl; lia |].
    split; [intros t []|]. split.
    + intros Hnone. split; [reflexivity |].
      destruct Htype as [Hnull | (t & _ & Htag & _)]; [| congruence].
      repeat split; assumption.
    + intros e He. split; [reflexivity |].
      destruct Htype as [Hnull | (t & Ht & Htag & Hname)];
        [repeat split; assumption |].
      exfalso. revert Hrun. unfold parseAndExecuteTool.
      rewrite Htag, He.
      destruct (String.eqb (cleanResponse llmResponse) EmptyString);
        cbv [try_catch bind lift ret]; simpl; intros Hrun;
        injection Hrun as <-; discriminate Ht.
  - exists pr, (EvInvoke t :: rest). split; [exact Hrun |]. split.
    { unfold invocations in *. simpl.
      rewrite toolEvent_not_invoke by exact Hrest. simpl. lia. }
    split.
    { intros t' [Heq | Hin].
      - injection Heq as <-. auto.
      - exfalso. rewrite forallb_forall in Hrest. specialize (Hrest _ Hin).
        discriminate Hrest. }
    split.
    + intros Hnone. congruence.
    + intros e He. exfalso. revert Hrun. unfold parseAndExecuteTool.
      rewrite Htag, He.
      destruct (String.eqb (cleanResponse llmResponse) EmptyString);
        cbv [try_catch bind lift ret]; simpl; intros Hrun; discriminate Hrun.
Qed.

(** C5, as stated, fails: this response holds two action blocks, and the
    handler of the first one runs (on no parameters, so that it lists the
    working directory) and succeeds. *)
Lemma two_action_blocks_run_the_first :
  actionTags (cleanResponse twoBlocks) = ["list_file"; "complete"]
  /\ parseAndExecuteTool worldTwoBlocks twoBlocks []
     = (Ok (mkParseResult
              (mkToolResponse true ("Directory . listing:" ++ nl))
              (Some "list_file") false),
        [EvInvoke "list_file"; EvReaddir "."]).
Proof. split; vm_compute; reflexivity. Qed.

(** ** Names outside the enumeration *)

Lemma parseAndExecuteTool_unknown w llmResponse h t doc :
  Regex.toolNameRegex (cleanResponse llmResponse) = Some t ->
  isToolName t = false ->
  parseStringPromise w (cleanResponse llmResponse) = Ok doc ->
  Js.nullish doc = false ->
  parseAndExecuteTool w llmResponse h
  = (Ok (mkParseResult (mkToolResponse false ("Unknown tool type: " ++ t)) (Some t) false),
     []).
Proof.
  intros Htag Hname Hdoc Hn.
  destruct (parseAndExecuteTool_shape w llmResponse h)
    as (pr & evs & Hrun & [(-> & _) | (t' & rest & _ & _ & Htag' & Hname' & _)]);
    [| congruence].
  rewrite Hrun. revert Hrun. unfold parseAndExecuteTool.
  rewrite Htag, Hdoc.
  destruct (String.eqb (cleanResponse llmResponse) EmptyString) eqn:Hempty.
  { apply String.eqb_eq in Hempty. rewrite Hempty in Htag. discriminate Htag. }
  unfold try_catch at 1, bind at 1, lift, bind at 1, member. rewrite Hn.
  unfold ret at 1.
  destruct (dispatch w t _) as [handler |] eqn:Hd.
  - exfalso. unfold dispatch in Hd. unfold isToolName in Hname. simpl in Hname.
    repeat match type of Hd with
           | (if ?b then _ else _) = _ => destruct b; [discriminate Hname |]
           end.
    discriminate Hd.
  - simpl. intros Hrun. injection Hrun as <-. reflexivity.
Qed.

Lemma parseAndExecuteTool_no_tag w llmResponse h :
  String.eqb (cleanResponse llmResponse) EmptyString = false ->
  Regex.toolNameRegex (cleanResponse llmResponse) = None ->
  parseAndExecuteTool w llmResponse h
  = (Ok (mkParseResult
           (mkToolResponse false "No valid tool tag found in the cleaned response.")
           None false),
     []).
Proof.
  intros Hempty Htag. unfold parseAndExecuteTool. rewrite Hempty, Htag. reflexivity.
Qed.

Lemma readFile_run w params h path :
  Js.prop params "path" = JStr path -> includes ".." path = false ->
  readFile w params h
  = (Ok match fs_readFile w h path with
        | Ok content => mkToolResponse true content
        | Throw e => mkToolResponse false ("Failed to read file: " ++ err_message e)
        end,
     [EvReadFile path]).
Proof.
  intros Hpath Hinc.
  assert (Hn : Js.nullish params = false)
    by (eapply prop_not_nullish; [exact Hpath | discriminate]).
  unfold readFile. run_handler. rewrite Hn. simpl. rewrite Hpath. simpl.
  rewrite Hinc. simpl. rewrite !app_nil_r.
  destruct (fs_readFile w h path); reflexivity.
Qed.

Lemma parseAndExecuteTool_known w llmResponse h t doc handler r evs :
  Regex.toolNameRegex (cleanResponse llmResponse) = Some t ->
  parseStringPromise w (cleanResponse llmResponse) = Ok doc ->
  Js.nullish doc = false ->
  dispatch w t (if Js.truthy (Js.prop doc t) then Js.prop doc t else JObj [])
  = Some handler ->
  handler (h ++ [EvInvoke t])%list = (Ok r, evs) ->
  parseAndExecuteTool w llmResponse h
  = (Ok (mkParseResult r (Some t) (String.eqb t ToolType.Complete)), EvInvoke t :: evs).
Proof.
  intros Htag Hdoc Hn Hd Hrun. unfold parseAndExecuteTool.
  rewrite Htag, Hdoc.
  destruct (String.eqb (cleanResponse llmResponse) EmptyString) eqn:Hempty.
  { apply String.eqb_eq in Hempty. rewrite Hempty in Htag. discriminate Htag. }
  unfold try_catch at 1, bind at 1, lift, bind at 1, member. rewrite Hn.
  unfold ret at 1. rewrite Hd.
  unfold bind, emit, ret. rewrite !app_nil_r. simpl. rewrite Hrun.
  rewrite app_nil_r. reflexivity.
Qed.

(** C7 at the failing input: with the tag in upper case the first match of
    the lower-case pattern is the child [path], so the block that decodes to
    a [read_file] of [a.txt] in lower case becomes the unknown tool [path],
    although the parser gave the same document for both. *)
Theorem upper_case_tag_decodes_to_its_child :
  forall (w : World) (h : trace),
    parseStringPromise w readLower = Ok readDoc ->
    parseStringPromise w readUpper = Ok readDoc ->
    (exists r,
       parseAndExecuteTool w readLower h
       = (Ok (mkParseResult r (Some "read_file") false),
          [EvInvoke "read_file"; EvReadFile "a.txt"]))
    /\ parseAndExecuteTool w readUpper h
       = (Ok (mkParseResult (mkToolResponse false "Unknown tool type: path")
                (Some "path") false),
          []).
Proof.
  intros w h Hlower Hupper. split.
  - eexists.
    apply (parseAndExecuteTool_known w readLower h "read_file" readDoc
             (readFile w (JObj [("path", JStr "a.txt")])));
      [reflexivity | exact Hlower | reflexivity | reflexivity |].
    apply readFile_run; reflexivity.
  - apply (parseAndExecuteTool_unknown w readUpper h "path" readDoc);
      [reflexivity | reflexivity | exact Hupper | reflexivity].
Qed.

Lemma upper_case_tag_witness :
  (exists r,
     parseAndExecuteTool worldReadFile readLower []
     = (Ok (mkParseResult r (Some "read_file") false),
        [EvInvoke "read_file"; EvReadFile "a.txt"]))
  /\ parseAndExecuteTool worldReadFile readUpper []
     = (Ok (mkParseResult (mkToolResponse false "Unknown tool type: path")
              (Some "path") false),
        []).
Proof.
  apply (upper_case_tag_decodes_to_its_child worldReadFile []); reflexivity.
Defined.

(** ** One turn of the session *)

Lemma turn_tool_result w s msg h resp t pr evs :
  chat_sendMessage w h msg = Ok resp ->
  text resp = Ok t ->
  String.eqb t EmptyString = false ->
  parseAndExecuteTool w t (h ++ [EvSendMessage msg])%list = (Ok pr, evs) ->
  turn w s msg h
  = (Ok (if negb (isComplete pr)
         then mkLoopState (isComplete pr) (S (st_turns s)) (Some (toolResultMessage pr))
         else mkLoopState (isComplete pr) (S (st_turns s)) None,
         false),
     EvSendMessage msg :: evs).
Proof.
  intros Hsend Htext Hne Hparse. unfold turn, try_catch, bind, request, lift.
  rewrite Hsend, Htext. simpl. rewrite Hne, !app_nil_r. simpl. rewrite Hparse.
  destruct (isComplete pr); simpl; rewrite app_nil_r; reflexivity.
Qed.

Lemma turn_safety_fault w s msg h e :
  thrownBy w h msg e ->
  includes "SAFETY" (err_message e) = true ->
  turn w s msg h = (Ok (mkLoopState true (S (st_turns s)) (Some msg), false),
                    [EvSendMessage msg]).
Proof.
  intros [Hsend | (resp & Hsend & Htext)] Hsafety;
    unfold turn, try_catch, bind, request, lift.
  - rewrite Hsend, Hsafety. reflexivity.
  - rewrite Hsend, Htext. simpl. rewrite Hsafety. reflexivity.
Qed.

(** Every turn sends one message to the model, first of all, counts one
    turn and returns. *)
Lemma turn_shape w s msg h :
  exists s' broke evs,
    turn w s msg h = (Ok (s', broke), EvSendMessage msg :: evs)
    /\ modelCalls evs = 0
    /\ st_turns s' = S (st_turns s).
Proof.
  unfold turn, try_catch at 1, bind at 1, request.
  destruct (chat_sendMessage w h msg) as [resp | e].
  2: { destruct (includes "SAFETY" (err_message e));
       do 3 eexists; (split; [reflexivity | split; reflexivity]). }
  unfold bind at 1, lift.
  destruct (text resp) as [t | e].
  2: { destruct (includes "SAFETY" (err_message e));
       do 3 eexists; (split; [reflexivity | split; reflexivity]). }
  destruct (String.eqb t EmptyString).
  { destruct (isBlockReason (finishReason resp));
    do 3 eexists; (split; [reflexivity | split; reflexivity]). }
  unfold bind. rewrite !app_nil_r. simpl.
  destruct (parseAndExecuteTool_shape w t (h ++ [EvSendMessage msg])%list)
    as (pr & evs & Hrun & Hshape).
  rewrite Hrun.
  assert (Hcalls : modelCalls evs = 0).
  { unfold modelCalls.
    destruct Hshape as [(-> & _) | (t' & rest & -> & Hrest & _)]; [reflexivity |].
    simpl. rewrite toolEvent_not_modelCall by exact Hrest. reflexivity. }
  destruct (isComplete pr); simpl; rewrite app_nil_r;
    do 3 eexists; (split; [reflexivity | split; [exact Hcalls | reflexivity]]).
Qed.

(** ** The session loop *)

Lemma modelCalls_app (e1 e2 : trace) :
  modelCalls (e1 ++ e2)%list = modelCalls e1 + modelCalls e2.
Proof. unfold modelCalls. rewrite filter_app, length_app. reflexivity. Qed.

(** The loop returns, and the turn counter has advanced by the number of
    messages sent to the model; it does not pass [maxTurns]. *)
Lemma loop_counts w : forall fuel s h,
  exists s' evs,
    loop w fuel s h = (Ok s', evs)
    /\ st_turns s' = st_turns s + modelCalls evs
    /\ (st_turns s <= maxTurns -> st_turns s' <= maxTurns).
Proof.
  induction fuel as [| fuel IH]; intros s h; simpl.
  { exists s, []. unfold modelCalls. simpl. repeat split; auto. }
  destruct (st_messageToSend s) as [msg |].
  2: { exists s, []. unfold modelCalls. simpl. repeat split; auto. }
  destruct (negb (st_isComplete s) && (st_turns s <? maxTurns)%nat) eqn:Hcond.
  2: { exists s, []. unfold modelCalls. simpl. repeat split; auto. }
  apply andb_true_iff in Hcond. destruct Hcond as [_ Hlt].
  apply Nat.ltb_lt in Hlt.
  destruct (turn_shape w s msg h) as (s1 & broke & evs1 & Hturn & Hcalls & Hturns).
  unfold bind. rewrite Hturn.
  destruct broke.
  - exists s1, ((EvSendMessage msg :: evs1) ++ [])%list. split; [reflexivity |].
    rewrite app_nil_r. unfold modelCalls in *. simpl. rewrite Hcalls. lia.
  - destruct (IH s1 (h ++ EvSendMessage msg :: evs1)%list)
      as (s' & evs & Hloop & Hcount & Hbound).
    rewrite Hloop. exists s', ((EvSendMessage msg :: evs1) ++ evs)%list.
    split; [reflexivity |].
    rewrite modelCalls_app. unfold modelCalls in *. simpl. rewrite Hcalls. lia.
Qed.

Lemma loop_unfold w fuel s :
  loop w (S fuel) s
  = match st_messageToSend s with
    | Some msg =>
        if negb (st_isComplete s) && (st_turns s <? maxTurns)%nat
        then bind (turn w s msg)
               (fun out => let '(s', broke) := out in
                           if broke then ret s' else loop w fuel s')
        else ret s
    | None => ret s
    end.
Proof. reflexivity. Qed.

(** [maxTurns] passes are all the loop can make: more fuel changes nothing. *)
Lemma loop_fuel w : forall fuel s h,
  maxTurns - st_turns s <= fuel -> loop w (S fuel) s h = loop w fuel s h.
Proof.
  induction fuel as [| fuel IH]; intros s h Hfuel.
  - simpl. destruct (st_messageToSend s); [| reflexivity].
    replace (st_turns s <? maxTurns)%nat with false
      by (symmetry; apply Nat.ltb_ge; lia).
    rewrite andb_false_r. reflexivity.
  - rewrite (loop_unfold w (S fuel)), (loop_unfold w fuel).
    destruct (st_messageToSend s) as [msg |]; [| reflexivity].
    destruct (negb (st_isComplete s) && (st_turns s <? maxTurns)%nat) eqn:Hcond;
      [| reflexivity].
    apply andb_true_iff in Hcond. destruct Hcond as [_ Hlt].
    apply Nat.ltb_lt in Hlt.
    destruct (turn_shape w s msg h) as (s1 & broke & evs1 & Hturn & _ & Hturns).
    unfold bind. rewrite Hturn. destruct broke; [reflexivity |].
    rewrite IH by lia. reflexivity.
Qed.

(** C8, as amended: when the model emits [<unknown_tool></unknown_tool>]
    and the parser returns a document, the dispatcher fails with
    [Unknown tool type: unknown_tool], the turn neither breaks nor completes,
    the next outbound message is [[unknown_tool Result] Failure:], a line
    feed and that message, and the counter advances by one.  For the
    empty-element tag [<unknown_tool/>] the pattern finds no tag: the turn
    goes on in the same way, and the next message is
    [[Execution Result] Failure:] with the "no valid tool tag" message. *)
Theorem unknown_tool_is_reported_and_the_turn_counted :
  forall (w : World) (s : LoopState) (msg : string) (h : trace)
         (resp : GenerateContentResponse) (doc : jsval),
    chat_sendMessage w h msg = Ok resp ->
    (text resp = Ok unknownPair ->
     parseStringPromise w unknownPair = Ok doc -> Js.nullish doc = false ->
     turn w s msg h
     = (Ok (mkLoopState false (S (st_turns s)) (Some unknownToolMessage), false),
        [EvSendMessage msg]))
    /\ (text resp = Ok unknownEmpty ->
        turn w s msg h
        = (Ok (mkLoopState false (S (st_turns s)) (Some noToolTagMessage), false),
           [EvSendMessage msg])).
Proof.
  intros w s msg h resp doc Hsend. split.
  - intros Htext Hdoc Hn.
    rewrite (turn_tool_result w s msg h resp unknownPair
               (mkParseResult (mkToolResponse false "Unknown tool type: unknown_tool")
                  (Some "unknown_tool") false) []);
      [reflexivity | exact Hsend | exact Htext | reflexivity |].
    apply (parseAndExecuteTool_unknown w unknownPair _ "unknown_tool" doc);
      [reflexivity | reflexivity | exact Hdoc | exact Hn].
  - intros Htext.
    rewrite (turn_tool_result w s msg h resp unknownEmpty
               (mkParseResult
                  (mkToolResponse false "No valid tool tag found in the cleaned response.")
                  None false) []);
      [reflexivity | exact Hsend | exact Htext | reflexivity |].
    apply parseAndExecuteTool_no_tag; reflexivity.
Qed.

Lemma unknown_tool_witness :
  turn worldUnknownTool (mkLoopState false 0 (Some "go")) "go" []
  = (Ok (mkLoopState false 1 (Some unknownToolMessage), false), [EvSendMessage "go"]).
Proof.
  apply (proj1 (unknown_tool_is_reported_and_the_turn_counted worldUnknownTool
                  (mkLoopState false 0 (Some "go")) "go" []
                  (textResponse unknownPair) unknownDoc eq_refl));
    reflexivity.
Defined.

(** C8, as stated, fails: on [<unknown_tool/>] nothing reaches the
    dispatcher, and the next outbound message does not open with
    [[unknown_tool Result] Failure:]. *)
Lemma empty_element_tag_is_no_tool_tag :
  parseAndExecuteTool worldUnknownEmpty unknownEmpty [EvSendMessage "go"]
  = (Ok (mkParseResult
           (mkToolResponse false "No valid tool tag found in the cleaned response.")
           None false),
     [])
  /\ turn worldUnknownEmpty (mkLoopState false 0 (Some "go")) "go" []
     = (Ok (mkLoopState false 1 (Some noToolTagMessage), false), [EvSendMessage "go"])
  /\ startsWith "[unknown_tool Result] Failure:" noToolTagMessage = false.
Proof. repeat split; vm_compute; reflexivity. Qed.

(** ** The turn budget *)

Lemma main_run w h :
  match rl_question w h "Task: " with
  | Ok task =>
      exists s evs,
        loop w maxTurns (mkLoopState false 0 (Some task))
          (h ++ [EvQuestion "Task: " (Ok task)])%list
        = (Ok s, evs)
        /\ st_turns s = modelCalls evs
        /\ main w h
           = (Ok (finalReport s),
              (EvQuestion "Task: " (Ok task) :: evs ++ [EvClose])%list)
  | Throw e => main w h = (Throw e, [EvQuestion "Task: " (Throw e); EvClose])
  end.
Proof.
  unfold main, try_finally, bind, question, emit.
  destruct (rl_question w h "Task: ") as [task | e]; [| reflexivity].
  destruct (loop_counts w maxTurns (mkLoopState false 0 (Some task))
              (h ++ [EvQuestion "Task: " (Ok task)])%list)
    as (s & evs & Hloop & Hcount & _).
  exists s, evs. rewrite Hloop. simpl in Hcount.
  split; [reflexivity |]. split; [exact Hcount |].
  simpl. rewrite app_nil_r. reflexivity.
Qed.

Lemma main_model_calls w h :
  modelCalls (snd (main w h)) <= maxTurns
  /\ (modelCalls (snd (main w h)) = maxTurns -> fst (main w h) = Ok Exhausted).
Proof.
  pose proof (main_run w h) as Hrun.
  destruct (rl_question w h "Task: ") as [task | e].
  - destruct Hrun as (s & evs & Hloop & Hcount & Hmain).
    destruct (loop_counts w maxTurns (mkLoopState false 0 (Some task))
                (h ++ [EvQuestion "Task: " (Ok task)])%list)
      as (s' & evs' & Hloop' & _ & Hbound).
    rewrite Hloop in Hloop'. injection Hloop' as <- <-.
    simpl in Hbound. specialize (Hbound (Nat.le_0_l _)).
    rewrite Hmain. simpl.
    assert (Hcalls : modelCalls (EvQuestion "Task: " (Ok task) :: evs ++ [EvClose])%list
                     = modelCalls evs).
    { change (EvQuestion "Task: " (Ok task) :: evs ++ [EvClose])%list
        with ([EvQuestion "Task: " (Ok task)] ++ evs ++ [EvClose])%list.
      rewrite !modelCalls_app. unfold modelCalls at 1 3. simpl. lia. }
    rewrite Hcalls, <- Hcount. split; [exact Hbound |].
    intros Hcap. unfold finalReport. rewrite Hcap. reflexivity.
  - rewrite Hrun. simpl. unfold modelCalls. simpl. split; [lia | discriminate].
Qed.

(** C3: a session sends at most [maxTurns] (15) messages to the model, and
    when it has sent that many without a [complete] having been dispatched
    its report is the one of exhaustion, not of completion. *)
Theorem session_stops_at_the_turn_cap :
  forall (w : World) (h : trace),
    modelCalls (snd (main w h)) <= maxTurns
    /\ (modelCalls (snd (main w h)) = maxTurns ->
        ~ In (EvInvoke ToolType.Complete) (snd (main w h)) ->
        fst (main w h) = Ok Exhausted).
Proof.
  intros w h. destruct (main_model_calls w h) as [Hle Hcap].
  split; [exact Hle | intros Heq _; exact (Hcap Heq)].
Qed.

Lemma turn_cap_witness :
  modelCalls (snd (main worldProse [])) = 15
  /\ fst (main worldProse []) = Ok Exhausted.
Proof.
  split; [vm_compute; reflexivity |].
  apply (proj2 (session_stops_at_the_turn_cap worldProse [])).
  - vm_compute. reflexivity.
  - vm_compute. intros H.
    repeat (destruct H as [H | H]; [discriminate H |]). exact H.
Defined.

(** ** A safety fault thrown by the transport *)

(** C6 at the failing input: when the first call to the model ends in a
    thrown fault whose message names SAFETY, no second call is made, and the
    session reports "--- Task Completed ---". *)
Theorem safety_fault_ends_in_the_completed_report :
  forall (w : World) (h : trace) (task : string) (e : exn),
    rl_question w h "Task: " = Ok task ->
    thrownBy w (h ++ [EvQuestion "Task: " (Ok task)])%list task e ->
    includes "SAFETY" (err_message e) = true ->
    main w h
    = (Ok Completed, [EvQuestion "Task: " (Ok task); EvSendMessage task; EvClose]).
Proof.
  intros w h task e Htask Hthrown Hsafety.
  unfold main, try_finally, bind at 1, question. rewrite Htask.
  change (loop w maxTurns) with (loop w 15).
  unfold bind at 1. rewrite loop_unfold.
  cbn [st_messageToSend st_isComplete st_turns negb andb].
  change (0 <? maxTurns)%nat with true. cbv iota.
  unfold bind at 1.
  rewrite (turn_safety_fault w _ task _ e Hthrown Hsafety).
  rewrite loop_unfold. reflexivity.
Qed.

Lemma safety_fault_witness :
  main worldSafetyFault []
  = (Ok Completed,
     [EvQuestion "Task: " (Ok "list the files"); EvSendMessage "list the files"; EvClose]).
Proof.
  apply (safety_fault_ends_in_the_completed_report worldSafetyFault []
           "list the files" safetyFault);
    [reflexivity | right; eexists; split; reflexivity | reflexivity].
Defined.

(** ** Handlers and absent parameters, together *)

Lemma writeFile_without_content_exact w params h :
  Js.nullish params = false -> Js.prop params "content" = JUndefined ->
  writeFile w params h
  = (Ok match Js.prop params "path" with
        | JStr path =>
            if includes ".." path then traversalRejected
            else mkToolResponse false
                   ("Failed to write file: "
                    ++ err_message (typeError w "params.content.substring"))
        | JArr items =>
            if existsb (Js.isStr "..") items then traversalRejected
            else mkToolResponse false
                   ("Failed to write file: "
                    ++ err_message (typeError w "params.content.substring"))
        | _ =>
            mkToolResponse false
              ("Failed to write file: "
               ++ err_message (typeError w "params.path.includes"))
        end,
     []).
Proof.
  intros Hn Hc. unfold writeFile. run_handler. rewrite Hn, Hc.
  destruct (Js.prop params "path") as [| | path | fields | items]; simpl;
    try reflexivity.
  - destruct (includes ".." path); reflexivity.
  - destruct (existsb (Js.isStr "..") items); reflexivity.
Qed.

Lemma executeCommand_without_command_exact w params h :
  Js.nullish params = false -> Js.prop params "command" = JUndefined ->
  exists r,
    executeCommand w params h
    = (Ok r,
       [EvQuestion (executeConfirmation JUndefined ++ " [y/n]: ")
          (rl_question w h (executeConfirmation JUndefined ++ " [y/n]: "))])
    /\ success r = false.
Proof.
  intros Hn Hc. unfold executeCommand, askForUserApproval. run_handler.
  rewrite Hn, Hc. simpl. rewrite !app_nil_r.
  crunch; eexists; split; reflexivity.
Qed.

(** C9, as amended: no handler throws on [params] the dispatcher passes.
    Without [path], [readFile] and [writeFile] return the failure that
    carries the runtime's fault on the absent value, without an event.
    Without [content], [writeFile] returns, again without an event, the
    traversal rejection when its path holds [..], the failure with the
    fault on the absent content for another string or array path, and the
    failure with the fault on the path otherwise.  [executeCommand] without
    [command] asks approval for the command [undefined], and returns a
    failure whatever the answer: the prompt is its only event.  [complete]
    without [result] succeeds, [askQuestion] without [question] succeeds
    once the operator answers, and [listFile] without [path] lists [.]. *)
Theorem absent_parameters_fail_or_default :
  forall (w : World) (params : jsval) (h : trace),
    Js.nullish params = false ->
    (total (listFile w params) /\ total (readFile w params)
     /\ total (writeFile w params) /\ total (askQuestion w params)
     /\ total (executeCommand w params) /\ total (complete w params))
    /\ (Js.prop params "path" = JUndefined ->
        readFile w params h
        = (Ok (mkToolResponse false
                 ("Failed to read file: "
                  ++ err_message (typeError w "params.path.includes"))), [])
        /\ writeFile w params h
           = (Ok (mkToolResponse false
                    ("Failed to write file: "
                     ++ err_message (typeError w "params.path.includes"))), []))
    /\ (Js.prop params "content" = JUndefined ->
        writeFile w params h
        = (Ok match Js.prop params "path" with
              | JStr path =>
                  if includes ".." path then traversalRejected
                  else mkToolResponse false
                         ("Failed to write file: "
                          ++ err_message (typeError w "params.content.substring"))
              | JArr items =>
                  if existsb (Js.isStr "..") items then traversalRejected
                  else mkToolResponse false
                         ("Failed to write file: "
                          ++ err_message (typeError w "params.content.substring"))
              | _ =>
                  mkToolResponse false
                    ("Failed to write file: "
                     ++ err_message (typeError w "params.path.includes"))
              end,
           []))
    /\ (Js.prop params "command" = JUndefined ->
        exists r,
          executeCommand w params h
          = (Ok r,
             [EvQuestion (executeConfirmation JUndefined ++ " [y/n]: ")
                (rl_question w h (executeConfirmation JUndefined ++ " [y/n]: "))])
          /\ success r = false)
    /\ (Js.prop params "result" = JUndefined ->
        complete w params h
        = (Ok (mkToolResponse true "Task completed: undefined"), []))
    /\ (Js.prop params "question" = JUndefined ->
        forall a,
          rl_question w h (nl ++ "Question: undefined" ++ nl ++ "Answer: ") = Ok a ->
          askQuestion w params h
          = (Ok (mkToolResponse true ("User answer: " ++ a)),
             [EvQuestion (nl ++ "Question: undefined" ++ nl ++ "Answer: ") (Ok a)]))
    /\ (Js.prop params "path" = JUndefined ->
        Js.prop params "recursive" = JUndefined ->
        forall entries,
          fs_readdir w h "." = DirEntries entries ->
          listFile w params h
          = (Ok (mkToolResponse true
                   ("Directory . listing:" ++ nl
                    ++ join nl (map (fun f => "- " ++ f)
                                  (map (path_join w ".") (map fst entries))))),
             [EvReaddir "."])).
Proof.
  intros w params h Hn.
  split.
  { repeat split;
      auto using total_listFile, total_readFile, total_writeFile, total_askQuestion,
        total_executeCommand, total_complete. }
  split.
  { intros Hp. split;
      [apply readFile_without_path | apply writeFile_without_path]; assumption. }
  split; [intros Hc; apply writeFile_without_content_exact; assumption |].
  split; [intros Hc; apply executeCommand_without_command_exact; assumption |].
  split; [intros Hr; apply complete_without_result; assumption |].
  split; [intros Hq a Ha; apply askQuestion_without_question; assumption |].
  intros Hp Hr entries Hd. apply listFile_without_path; assumption.
Qed.

Lemma absent_parameters_witness :
  readFile worldYes (JObj []) []
  = (Ok (mkToolResponse false
           ("Failed to read file: "
            ++ err_message (typeError worldYes "params.path.includes"))), [])
  /\ complete worldYes (JObj []) []
     = (Ok (mkToolResponse true "Task completed: undefined"), []).
Proof.
  pose proof (absent_parameters_fail_or_default worldYes (JObj []) [] eq_refl)
    as (_ & Hpath & _ & _ & Hresult & _).
  split.
  - apply Hpath. reflexivity.
  - apply Hresult. reflexivity.
Defined.

Example write_without_content_traversal :
  writeFile worldYes (JObj [("path", JStr "../x")]) [] = (Ok traversalRejected, []).
Proof. reflexivity. Qed.

Example write_without_content_fault :
  writeFile worldYes (JObj [("path", JStr "notes.txt")]) []
  = (Ok (mkToolResponse false
           ("Failed to write file: "
            ++ err_message (typeError worldYes "params.content.substring"))),
     []).
Proof. reflexivity. Qed.

(** C9, as stated, fails: [complete] without its [result] returns a
    successful result, and so does [askQuestion] without its [question]. *)
Lemma complete_and_ask_succeed_without_parameter :
  complete worldYes (JObj []) []
  = (Ok (mkToolResponse true "Task completed: undefined"), [])
  /\ fst (askQuestion worldYes (JObj []) [])
     = Ok (mkToolResponse true "User answer: Y").
Proof. split; reflexivity. Qed.

(** ** The scenario of the specification *)

Example write_approved :
  writeFile worldYes helloParams []
  = (Ok (mkToolResponse true "Successfully wrote to file hello.txt"),
     [EvQuestion (writeConfirmation (JStr "hello.txt") "Hello World!" ++ " [y/n]: ")
        (Ok "Y");
      EvMkdir "."; EvWriteFile "hello.txt" "Hello World!"]).
Proof. reflexivity. Qed.

Example write_rejected :
  writeFile worldNo helloParams []
  = (Ok cancelledWrite,
     [EvQuestion (writeConfirmation (JStr "hello.txt") "Hello World!" ++ " [y/n]: ")
        (Ok "n")]).
Proof. reflexivity. Qed.

Lemma write_needs_approval_witness :
  exists content e rest,
    Js.prop helloParams "content" = JStr content
    /\ snd (writeFile worldYes helloParams []) = e :: rest
    /\ gateOutcome e
       = Some (writeConfirmation (Js.prop helloParams "path") content ++ " [y/n]: ",
               true).
Proof.
  pose proof (proj1 (write_and_execute_need_approval worldYes helloParams [])) as H.
  destruct (writeFile worldYes helloParams []) as [r evs] eqn:Hrun.
  rewrite write_approved in Hrun. injection Hrun as <- <-.
  apply (proj1 H). reflexivity.
Defined.

(** ** Sessions from start to end *)

(** The write scenario: one approved write, then [complete]; two messages
    to the model and the report of completion. *)
Example hello_session :
  main worldHello []
  = (Ok Completed,
     [EvQuestion "Task: " (Ok "create hello.txt containing Hello World!");
      EvSendMessage "create hello.txt containing Hello World!";
      EvInvoke "write_file";
      EvQuestion (writeConfirmation (JStr "hello.txt") "Hello World!" ++ " [y/n]: ")
        (Ok "y");
      EvMkdir ".";
      EvWriteFile "hello.txt" "Hello World!";
      EvSendMessage ("[write_file Result] Success:" ++ nl
                     ++ "Successfully wrote to file hello.txt");
      EvInvoke "complete";
      EvClose]).
Proof. vm_compute. reflexivity. Qed.

(** The block indicator on an empty response leaves the loop through
    [break], and the report is the one of the unexpected stop. *)
Lemma block_indicator_aborts w h task resp :
  rl_question w h "Task: " = Ok task ->
  chat_sendMessage w (h ++ [EvQuestion "Task: " (Ok task)])%list task = Ok resp ->
  text resp = Ok EmptyString ->
  isBlockReason (finishReason resp) = true ->
  main w h = (Ok Aborted, [EvQuestion "Task: " (Ok task); EvSendMessage task; EvClose]).
Proof.
  intros Htask Hsend Htext Hblock.
  unfold main, try_finally, bind at 1, question. rewrite Htask.
  change (loop w maxTurns) with (loop w 15).
  unfold bind at 1. rewrite loop_unfold.
  cbn [st_messageToSend st_isComplete st_turns negb andb].
  change (0 <? maxTurns)%nat with true. cbv iota.
  unfold bind at 1, turn, try_catch, bind, request, lift.
  rewrite Hsend, Htext. simpl. rewrite Hblock. reflexivity.
Qed.

Example blocked_session :
  main worldBlocked []
  = (Ok Aborted,
     [EvQuestion "Task: " (Ok "list the files"); EvSendMessage "list the files"; EvClose]).
Proof. vm_compute. reflexivity. Qed.

(** A safety fault at any turn ends the loop with the completion flag set. *)
Lemma loop_safety_fault w fuel s msg h e :
  st_messageToSend s = Some msg ->
  st_isComplete s = false ->
  st_turns s < maxTurns ->
  thrownBy w h msg e ->
  includes "SAFETY" (err_message e) = true ->
  loop w (S fuel) s h
  = (Ok (mkLoopState true (S (st_turns s)) (Some msg)), [EvSendMessage msg]).
Proof.
  intros Hmsg Hc Hlt Hsend Hsafety.
  rewrite loop_unfold, Hmsg, Hc.
  apply Nat.ltb_lt in Hlt. rewrite Hlt. simpl.
  unfold bind. rewrite (turn_safety_fault w s msg h e Hsend Hsafety).
  destruct fuel as [| fuel]; [reflexivity |].
  rewrite loop_unfold. reflexivity.
Qed.

(** * Further properties *)

(** ** Cleaning the response *)

(** X1: a response fenced as [```], an optional [xml] in any letter case, a
    line feed, the body, a line feed and [```] is cleaned to its body, when
    the body is trimmed and holds no fence of its own; it is then handled
    exactly as the bare body is. *)
Theorem fenced_response_is_handled_as_its_body :
  forall (w : World) (lang body : string) (h : trace),
    lang = EmptyString \/ toLowerCase lang = "xml" ->
    trim body = body ->
    includes Regex.fence body = false ->
    cleanResponse (fenced lang body) = body
    /\ parseAndExecuteTool w (fenced lang body) h = parseAndExecuteTool w body h.
Proof.
  intros w lang body h Hlang Htrim Hfence.
  assert (Hf : cleanResponse (fenced lang body) = body)
    by (apply cleanResponse_fenced; assumption).
  split; [exact Hf |].
  unfold parseAndExecuteTool. rewrite Hf, cleanResponse_plain by assumption.
  reflexivity.
Qed.

Lemma fenced_response_witness :
  cleanResponse (fenced "XML" doneBlock) = doneBlock
  /\ parseAndExecuteTool worldHello (fenced "XML" doneBlock) []
     = parseAndExecuteTool worldHello doneBlock [].
Proof.
  apply (fenced_response_is_handled_as_its_body worldHello "XML" doneBlock []);
    [right; reflexivity | reflexivity | reflexivity].
Defined.

(** X2: the cleaned response is a contiguous part of the response, with
    no white space at either end. *)
Theorem cleaned_response_is_a_trimmed_part :
  forall s : string,
    includes (cleanResponse s) s = true
    /\ trim (cleanResponse s) = cleanResponse s.
Proof.
  intros s. split.
  - apply cleanResponse_includes.
  - unfold cleanResponse. apply trim_idem.
Qed.

(** ** The first opening tag *)

(** X3: the name [toolNameRegex] returns is not empty, is made of [a-z] and
    [_], and stands between [<] and [>] in the text, with no match in the
    text before it. *)
Theorem tool_name_is_the_first_opening_tag :
  forall (s name : string),
    Regex.toolNameRegex s = Some name ->
    name <> EmptyString
    /\ allNameChars name = true
    /\ exists pre post,
         s = pre ++ "<" ++ name ++ ">" ++ post
         /\ Regex.toolNameRegex pre = None.
Proof. intros s name H. apply toolNameRegex_sound. exact H. Qed.

Lemma first_opening_tag_witness :
  "write_file" <> EmptyString
  /\ allNameChars "write_file" = true
  /\ exists pre post,
       ("Sure: " ++ helloBlock) = pre ++ "<" ++ "write_file" ++ ">" ++ post
       /\ Regex.toolNameRegex pre = None.
Proof.
  apply (tool_name_is_the_first_opening_tag ("Sure: " ++ helloBlock) "write_file").
  reflexivity.
Defined.

(** X4: [toolNameRegex] finds nothing exactly in the texts where no
    [<name>] with a name of [a-z] and [_] occurs. *)
Theorem no_match_iff_no_opening_tag :
  forall s : string, Regex.toolNameRegex s = None <-> ~ hasOpeningTag s.
Proof.
  intros s. split.
  - intros Hnone (pre & name & post & Hne & Hall & ->).
    destruct (toolNameRegex_complete pre name post Hne Hall) as [n Hn]. congruence.
  - intros Hno. destruct (Regex.toolNameRegex s) as [name |] eqn:Htag; [| reflexivity].
    exfalso. apply Hno.
    destruct (toolNameRegex_sound s name Htag) as (Hne & Hall & pre & post & Hs & _).
    exists pre, name, post. auto.
Qed.

(** ** What the dispatcher reports *)

Lemma complete_run w params h :
  Js.nullish params = false ->
  complete w params h
  = (Ok (mkToolResponse true ("Task completed: " ++ Js.toStr (Js.prop params "result"))),
     []).
Proof. intros Hn. unfold complete. run_handler. rewrite Hn. reflexivity. Qed.

Lemma dispatch_complete w params :
  dispatch w ToolType.Complete params = Some (complete w params).
Proof. reflexivity. Qed.

Lemma parseAndExecuteTool_complete w llmResponse h pr evs :
  parseAndExecuteTool w llmResponse h = (Ok pr, evs) ->
  Regex.toolNameRegex (cleanResponse llmResponse) = Some ToolType.Complete ->
  toolType pr = Some ToolType.Complete ->
  evs = [EvInvoke ToolType.Complete]
  /\ isComplete pr = true
  /\ success (response pr) = true.
Proof.
  intros Hrun Htag Htype. revert Hrun. unfold parseAndExecuteTool. rewrite Htag.
  destruct (String.eqb (cleanResponse llmResponse) EmptyString);
    [intros H; injection H as <- <-; discriminate Htype |].
  unfold try_catch at 1, bind at 1, lift.
  destruct (parseStringPromise w (cleanResponse llmResponse)) as [doc | e];
    [| intros H; injection H as <- <-; discriminate Htype].
  unfold bind at 1, member.
  destruct (Js.nullish doc);
    [intros H; injection H as <- <-; discriminate Htype |].
  unfold ret at 1. rewrite dispatch_complete.
  unfold bind, emit, ret. rewrite !app_nil_r.
  rewrite complete_run by apply truthy_not_nullish.
  intros H. injection H as <- <-. auto.
Qed.

(** X5: the completion flag is raised only when the first opening tag is
    [complete]; the [complete] handler then ran alone, requested nothing of
    the outside and succeeded. *)
Theorem completion_comes_from_complete_alone :
  forall (w : World) (llmResponse : string) (h : trace) (pr : ParseResult) (evs : trace),
    parseAndExecuteTool w llmResponse h = (Ok pr, evs) ->
    isComplete pr = true ->
    Regex.toolNameRegex (cleanResponse llmResponse) = Some ToolType.Complete
    /\ toolType pr = Some ToolType.Complete
    /\ evs = [EvInvoke ToolType.Complete]
    /\ success (response pr) = true.
Proof.
  intros w llmResponse h pr evs Hrun Hc.
  destruct (parseAndExecuteTool_shape w llmResponse h)
    as (pr' & evs' & Hrun' & Hshape).
  rewrite Hrun in Hrun'. injection Hrun' as <- <-.
  destruct Hshape as [(_ & _ & Hc' & _) | (t & rest & _ & _ & Htag & _ & Htype & Hc')];
    [congruence |].
  rewrite Hc in Hc'. symmetry in Hc'. apply String.eqb_eq in Hc'. subst t.
  destruct (parseAndExecuteTool_complete w llmResponse h pr evs Hrun Htag Htype)
    as (Hevs & _ & Hs).
  auto.
Qed.

Lemma completion_witness :
  Regex.toolNameRegex (cleanResponse doneBlock) = Some ToolType.Complete
  /\ toolType (mkParseResult (mkToolResponse true "Task completed: Done")
                 (Some "complete") true)
     = Some ToolType.Complete
  /\ [EvInvoke "complete"] = [EvInvoke ToolType.Complete]
  /\ success (response (mkParseResult (mkToolResponse true "Task completed: Done")
                          (Some "complete") true))
     = true.
Proof.
  apply (completion_comes_from_complete_alone worldHello doneBlock []
           (mkParseResult (mkToolResponse true "Task completed: Done")
              (Some "complete") true)
           [EvInvoke "complete"]);
    reflexivity.
Defined.

(** X6: when the tool reported is none, or a name outside the six, nothing
    was requested of the outside, the result is a failure and the completion
    flag is down. *)
Theorem unrecognized_response_has_no_effect :
  forall (w : World) (llmResponse : string) (h : trace) (pr : ParseResult) (evs : trace),
    parseAndExecuteTool w llmResponse h = (Ok pr, evs) ->
    match toolType pr with
    | None => True
    | Some t => isToolName t = false
    end ->
    evs = [] /\ success (response pr) = false /\ isComplete pr = false.
Proof.
  intros w llmResponse h pr evs Hrun Htype.
  destruct (parseAndExecuteTool_shape w llmResponse h)
    as (pr' & evs' & Hrun' & Hshape).
  rewrite Hrun in Hrun'. injection Hrun' as <- <-.
  destruct Hshape as [(-> & Hs & Hc & _) | (t & rest & _ & _ & _ & Hname & Ht & _)];
    [auto |].
  rewrite Ht in Htype. congruence.
Qed.

Lemma unrecognized_response_witness :
  ([] : trace) = []
  /\ success (response (mkParseResult
                          (mkToolResponse false "Unknown tool type: path")
                          (Some "path") false))
     = false
  /\ isComplete (mkParseResult (mkToolResponse false "Unknown tool type: path")
                   (Some "path") false)
     = false.
Proof.
  apply (unrecognized_response_has_no_effect worldReadFile readUpper []
           (mkParseResult (mkToolResponse false "Unknown tool type: path")
              (Some "path") false)
           []);
    reflexivity.
Defined.

(** X7: when the first opening tag names a tool but the document the
    parser returns has no member of that name, or an empty one (the tag is
    not the root element, or the element is empty), the tool runs on the
    empty object: [complete] completes with the result [undefined],
    [read_file] and [write_file] fail on the absent path without touching a
    file, [list_file] lists [.], [ask_question] asks [undefined], and
    [execute_command] asks approval for [undefined] and fails. *)
Theorem tag_without_own_element_runs_on_no_parameters :
  forall (w : World) (llmResponse : string) (h : trace) (doc : jsval) (t : string),
    Regex.toolNameRegex (cleanResponse llmResponse) = Some t ->
    parseStringPromise w (cleanResponse llmResponse) = Ok doc ->
    Js.nullish doc = false ->
    Js.truthy (Js.prop doc t) = false ->
    (t = ToolType.Complete ->
     parseAndExecuteTool w llmResponse h
     = (Ok (mkParseResult (mkToolResponse true "Task completed: undefined")
              (Some t) true),
        [EvInvoke t]))
    /\ (t = ToolType.ReadFile ->
        parseAndExecuteTool w llmResponse h
        = (Ok (mkParseResult
                 (mkToolResponse false
                    ("Failed to read file: "
                     ++ err_message (typeError w "params.path.includes")))
                 (Some t) false),
           [EvInvoke t]))
    /\ (t = ToolType.WriteFile ->
        parseAndExecuteTool w llmResponse h
        = (Ok (mkParseResult
                 (mkToolResponse false
                    ("Failed to write file: "
                     ++ err_message (typeError w "params.path.includes")))
                 (Some t) false),
           [EvInvoke t]))
    /\ (t = ToolType.ListFile ->
        forall entries,
          fs_readdir w (h ++ [EvInvoke t])%list "." = DirEntries entries ->
          parseAndExecuteTool w llmResponse h
          = (Ok (mkParseResult
                   (listing "." (map (path_join w ".") (map fst entries)))
                   (Some t) false),
             [EvInvoke t; EvReaddir "."]))
    /\ (t = ToolType.AskQuestion ->
        forall a,
          rl_question w (h ++ [EvInvoke t])%list
            (nl ++ "Question: undefined" ++ nl ++ "Answer: ") = Ok a ->
          parseAndExecuteTool w llmResponse h
          = (Ok (mkParseResult (mkToolResponse true ("User answer: " ++ a))
                   (Some t) false),
             [EvInvoke t;
              EvQuestion (nl ++ "Question: undefined" ++ nl ++ "Answer: ") (Ok a)]))
    /\ (t = ToolType.ExecuteCommand ->
        exists r,
          parseAndExecuteTool w llmResponse h
          = (Ok (mkParseResult r (Some t) false),
             [EvInvoke t;
              EvQuestion (executeConfirmation JUndefined ++ " [y/n]: ")
                (rl_question w (h ++ [EvInvoke t])%list
                   (executeConfirmation JUndefined ++ " [y/n]: "))])
          /\ success r = false).
Proof.
  intros w llmResponse h doc t Htag Hdoc Hn Hfalsy.
  assert (Hempty : Js.nullish (JObj []) = false) by reflexivity.
  assert (Hrun : forall handler r evs,
             dispatch w t (JObj []) = Some handler ->
             handler (h ++ [EvInvoke t])%list = (Ok r, evs) ->
             parseAndExecuteTool w llmResponse h
             = (Ok (mkParseResult r (Some t) (String.eqb t ToolType.Complete)),
                EvInvoke t :: evs)).
  { intros handler r evs Hd Hh.
    apply (parseAndExecuteTool_known w llmResponse h t doc handler r evs);
      try assumption.
    rewrite Hfalsy. exact Hd. }
  repeat split.
  - intros ->. apply (Hrun (complete w (JObj []))); [reflexivity |].
    apply complete_without_result; reflexivity.
  - intros ->. apply (Hrun (readFile w (JObj []))); [reflexivity |].
    apply readFile_without_path; reflexivity.
  - intros ->. apply (Hrun (writeFile w (JObj []))); [reflexivity |].
    apply writeFile_without_path; reflexivity.
  - intros -> entries Hdir. apply (Hrun (listFile w (JObj []))); [reflexivity |].
    apply listFile_without_path; [reflexivity | reflexivity | reflexivity | exact Hdir].
  - intros -> a Ha. apply (Hrun (askQuestion w (JObj []))); [reflexivity |].
    apply askQuestion_without_question; [reflexivity | reflexivity | exact Ha].
  - intros ->.
    destruct (executeCommand_without_command_exact w (JObj [])
                (h ++ [EvInvoke ToolType.ExecuteCommand])%list eq_refl eq_refl)
      as (r & Hexec & Hs).
    exists r. split; [| exact Hs].
    apply (Hrun (executeCommand w (JObj []))); [reflexivity | exact Hexec].
Qed.

Lemma tag_without_own_element_witness :
  parseAndExecuteTool worldTwoBlocks twoBlocks []
  = (Ok (mkParseResult (listing "." []) (Some "list_file") false),
     [EvInvoke "list_file"; EvReaddir "."]).
Proof.
  apply (proj1 (proj2 (proj2 (proj2
           (tag_without_own_element_runs_on_no_parameters worldTwoBlocks twoBlocks []
              twoBlocksDoc "list_file" eq_refl eq_refl eq_refl eq_refl))))
           eq_refl []);
    reflexivity.
Defined.

(** ** What the handlers do and do not do *)

Lemma writeFile_success w params h :
  match writeFile w params h with
  | (Ok r, evs) =>
      success r = true ->
      exists path content a,
        Js.prop params "path" = JStr path
        /\ Js.prop params "content" = JStr content
        /\ includes ".." path = false
        /\ (a = "y" \/ a = "Y")
        /\ evs = [EvQuestion (writeConfirmation (JStr path) content ++ " [y/n]: ") (Ok a);
                  EvMkdir (path_dirname w path); EvWriteFile path content]
        /\ fs_mkdir w
             (h ++ [EvQuestion (writeConfirmation (JStr path) content ++ " [y/n]: ")
                      (Ok a)])%list
             (path_dirname w path) = Ok tt
        /\ fs_writeFile w
             (h ++ [EvQuestion (writeConfirmation (JStr path) content ++ " [y/n]: ")
                      (Ok a);
                    EvMkdir (path_dirname w path)])%list
             path content = Ok tt
        /\ message r = "Successfully wrote to file " ++ path
  | (Throw _, _) => True
  end.
Proof.
  unfold writeFile, askForUserApproval. run_handler. crunch.
  all: try (intros Hs; discriminate Hs).
  intros _.
  repeat rewrite app_nil_r in *. rewrite <- app_assoc in Heqr1. simpl in Heqr1.
  destruct a0, a1.
  apply negb_false_iff, toLowerCase_y in Heqb1.
  exists s, s0, a. repeat split; auto.
Qed.

(** X8: [writeFile] reports success only after the operator answered [y]
    or [Y] to the prompt for this path and content, the path being a string
    without [..], and after both the directory creation and the write of
    exactly this content to exactly this path returned; these three are
    then all its events. *)
Theorem write_success_means_the_file_was_written :
  forall (w : World) (params : jsval) (h : trace) (r : ToolResponse) (evs : trace),
    writeFile w params h = (Ok r, evs) ->
    success r = true ->
    exists path content a,
      Js.prop params "path" = JStr path
      /\ Js.prop params "content" = JStr content
      /\ includes ".." path = false
      /\ (a = "y" \/ a = "Y")
      /\ evs = [EvQuestion (writeConfirmation (JStr path) content ++ " [y/n]: ") (Ok a);
                EvMkdir (path_dirname w path); EvWriteFile path content]
      /\ fs_mkdir w
           (h ++ [EvQuestion (writeConfirmation (JStr path) content ++ " [y/n]: ")
                    (Ok a)])%list
           (path_dirname w path) = Ok tt
      /\ fs_writeFile w
           (h ++ [EvQuestion (writeConfirmation (JStr path) content ++ " [y/n]: ")
                    (Ok a);
                  EvMkdir (path_dirname w path)])%list
           path content = Ok tt
      /\ message r = "Successfully wrote to file " ++ path.
Proof.
  intros w params h r evs Hrun Hs.
  pose proof (writeFile_success w params h) as H. rewrite Hrun in H. exact (H Hs).
Qed.

Lemma write_success_witness :
  exists path content a,
    Js.prop helloParams "path" = JStr path
    /\ Js.prop helloParams "content" = JStr content
    /\ includes ".." path = false
    /\ (a = "y" \/ a = "Y")
    /\ [EvQuestion (writeConfirmation (JStr "hello.txt") "Hello World!" ++ " [y/n]: ")
          (Ok "Y");
        EvMkdir "."; EvWriteFile "hello.txt" "Hello World!"]
       = [EvQuestion (writeConfirmation (JStr path) content ++ " [y/n]: ") (Ok a);
          EvMkdir (path_dirname worldYes path); EvWriteFile path content]
    /\ fs_mkdir worldYes
         ([] ++ [EvQuestion (writeConfirmation (JStr path) content ++ " [y/n]: ")
                   (Ok a)])%list
         (path_dirname worldYes path) = Ok tt
    /\ fs_writeFile worldYes
         ([] ++ [EvQuestion (writeConfirmation (JStr path) content ++ " [y/n]: ")
                   (Ok a);
                 EvMkdir (path_dirname worldYes path)])%list
         path content = Ok tt
    /\ message (mkToolResponse true "Successfully wrote to file hello.txt")
       = "Successfully wrote to file " ++ path.
Proof.
  apply (write_success_means_the_file_was_written worldYes helloParams []
           (mkToolResponse true "Successfully wrote to file hello.txt"));
    reflexivity.
Defined.

Lemma executeCommand_success w params h :
  match executeCommand w params h with
  | (Ok r, evs) =>
      success r = true ->
      exists cmd a out err,
        Js.prop params "command" = JStr cmd
        /\ (a = "y" \/ a = "Y")
        /\ evs = [EvQuestion (executeConfirmation (JStr cmd) ++ " [y/n]: ") (Ok a);
                  EvExec cmd]
        /\ execAsync w
             (h ++ [EvQuestion (executeConfirmation (JStr cmd) ++ " [y/n]: ") (Ok a)])%list
             cmd = Ok (out, err)
        /\ message r
           = "Command executed successfully."
             ++ (if String.eqb out EmptyString then EmptyString
                 else nl ++ "Output:" ++ nl ++ out)
  | (Throw _, _) => True
  end.
Proof.
  unfold executeCommand, askForUserApproval. run_handler. crunch.
  all: try (intros Hs; discriminate Hs).
  all: intros _.
  all: repeat rewrite app_nil_r in *.
  all: match goal with
       | H : negb _ = false |- _ => apply negb_false_iff, toLowerCase_y in H
       end.
  all: do 4 eexists;
    (split; [reflexivity |]); (split; [eassumption |]); (split; [reflexivity |]);
    (split; [eassumption |]).
  all: match goal with H : String.eqb _ EmptyString = _ |- _ => rewrite H end;
    reflexivity.
Qed.

(** X9: [executeCommand] reports success only after the operator answered
    [y] or [Y] to the prompt for this command and the shell ran it and
    returned; the message carries the standard output, when there is some,
    and never the standard error. *)
Theorem execute_success_means_the_command_ran :
  forall (w : World) (params : jsval) (h : trace) (r : ToolResponse) (evs : trace),
    executeCommand w params h = (Ok r, evs) ->
    success r = true ->
    exists cmd a out err,
      Js.prop params "command" = JStr cmd
      /\ (a = "y" \/ a = "Y")
      /\ evs = [EvQuestion (executeConfirmation (JStr cmd) ++ " [y/n]: ") (Ok a);
                EvExec cmd]
      /\ execAsync w
           (h ++ [EvQuestion (executeConfirmation (JStr cmd) ++ " [y/n]: ") (Ok a)])%list
           cmd = Ok (out, err)
      /\ message r
         = "Command executed successfully."
           ++ (if String.eqb out EmptyString then EmptyString
               else nl ++ "Output:" ++ nl ++ out).
Proof.
  intros w params h r evs Hrun Hs.
  pose proof (executeCommand_success w params h) as H. rewrite Hrun in H. exact (H Hs).
Qed.

Lemma execute_success_witness :
  exists cmd a out err,
    Js.prop (JObj [("command", JStr "ls")]) "command" = JStr cmd
    /\ (a = "y" \/ a = "Y")
    /\ [EvQuestion (executeConfirmation (JStr "ls") ++ " [y/n]: ") (Ok "Y"); EvExec "ls"]
       = [EvQuestion (executeConfirmation (JStr cmd) ++ " [y/n]: ") (Ok a); EvExec cmd]
    /\ execAsync worldYes
         ([] ++ [EvQuestion (executeConfirmation (JStr cmd) ++ " [y/n]: ") (Ok a)])%list
         cmd = Ok (out, err)
    /\ message (mkToolResponse true "Command executed successfully.")
       = "Command executed successfully."
         ++ (if String.eqb out EmptyString then EmptyString
             else nl ++ "Output:" ++ nl ++ out).
Proof.
  apply (execute_success_means_the_command_ran worldYes
           (JObj [("command", JStr "ls")]) []
           (mkToolResponse true "Command executed successfully."));
    reflexivity.
Defined.

Section Quiet.

Variable w : World.
Variable P : event -> bool.

Lemma member_adds_nothing expr obj k : only P (member w expr obj k).
Proof. unfold member. destruct (Js.nullish obj); only_step. Qed.

Lemma call_includes_adds_nothing expr v sub : only P (call_includes w expr v sub).
Proof. unfold call_includes. destruct v; only_step. Qed.

Lemma string_arg_adds_nothing expr v : only P (string_arg w expr v).
Proof. unfold string_arg. destruct v; only_step. Qed.

End Quiet.

Lemma readDirRecursive_reads w : forall found dir,
  only isFsRead (readDirRecursive w dir found).
Proof.
  fix IH 1. intros [e | entries] dir; simpl.
  - repeat only_step.
  - apply only_bind; [only_step |]. intros _.
    induction entries as [| [name sub] rest IHrest]; [only_step |].
    apply only_bind.
    + destruct sub as [found' |]; [apply IH | only_step].
    + intros below. apply only_bind; [exact IHrest |]. intros after. only_step.
Qed.

Lemma readdir_names_reads w dir : only isFsRead (readdir_names w dir).
Proof. intros h. unfold readdir_names. destruct (fs_readdir w h dir); reflexivity. Qed.

Ltac only_quiet :=
  repeat first
    [ apply member_adds_nothing | apply call_includes_adds_nothing
    | apply string_arg_adds_nothing
    | apply readDirRecursive_reads | apply readdir_names_reads
    | only_step
    | match goal with
      | |- forall _, _ => intro
      | |- only _ (if ?b then _ else _) => destruct b
      | |- only _ (match ?v with _ => _ end) => destruct v
      end ].

(** X10: of the six tool functions only [writeFile] and [executeCommand]
    can change anything: [listFile] and [readFile] only read the filesystem,
    [askQuestion] only prompts the operator, and [complete] requests
    nothing at all, whatever the parameters and the world. *)
Theorem four_handlers_change_nothing :
  forall (w : World) (params : jsval),
    only isFsRead (listFile w params)
    /\ only isFsRead (readFile w params)
    /\ only isPrompt (askQuestion w params)
    /\ only (fun _ => false) (complete w params).
Proof.
  intros w params. repeat split.
  - unfold listFile. only_quiet. intros h. apply readDirRecursive_reads.
  - unfold readFile. only_quiet.
  - unfold askQuestion. only_quiet. intros h. reflexivity.
  - unfold complete. only_quiet.
Qed.

Lemma readFile_reads_checked_path w params h p :
  In (EvReadFile p) (snd (readFile w params h)) ->
  Js.prop params "path" = JStr p /\ includes ".." p = false.
Proof.
  unfold readFile. run_handler. crunch; intros Hin; simpl in Hin;
    repeat match goal with
           | H : _ \/ _ |- _ => destruct H
           | H : False |- _ => destruct H
           | H : EvReadFile _ = EvReadFile _ |- _ => injection H as <-
           end;
    auto.
Qed.

Lemma writeFile_touches_checked_path w params h :
  (forall p c,
     In (EvWriteFile p c) (snd (writeFile w params h)) ->
     Js.prop params "path" = JStr p /\ includes ".." p = false
     /\ Js.prop params "content" = JStr c)
  /\ (forall d,
        In (EvMkdir d) (snd (writeFile w params h)) ->
        exists p, Js.prop params "path" = JStr p /\ includes ".." p = false
                  /\ d = path_dirname w p).
Proof.
  unfold writeFile, askForUserApproval. run_handler. crunch; split; intros;
    repeat match goal with
           | H : In _ _ |- _ => simpl in H
           | H : _ \/ _ |- _ => destruct H
           | H : False |- _ => destruct H
           | H : EvWriteFile _ _ = EvWriteFile _ _ |- _ => injection H as <- <-
           | H : EvMkdir _ = EvMkdir _ |- _ => injection H as <-
           | H : _ = _ |- _ => discriminate H
           end;
    eauto.
Qed.

(** X11: every file [readFile] reads, every file [writeFile] writes and
    every directory it creates comes from a [path] parameter that is a
    string without [..]: the file is that path, the content written is the
    [content] parameter, the directory is [path.dirname] of the path. *)
Theorem files_touched_passed_the_traversal_check :
  forall (w : World) (params : jsval) (h : trace),
    (forall p,
       In (EvReadFile p) (snd (readFile w params h)) ->
       Js.prop params "path" = JStr p /\ includes ".." p = false)
    /\ (forall p c,
          In (EvWriteFile p c) (snd (writeFile w params h)) ->
          Js.prop params "path" = JStr p /\ includes ".." p = false
          /\ Js.prop params "content" = JStr c)
    /\ (forall d,
          In (EvMkdir d) (snd (writeFile w params h)) ->
          exists p, Js.prop params "path" = JStr p /\ includes ".." p = false
                    /\ d = path_dirname w p).
Proof.
  intros w params h. split; [| apply writeFile_touches_checked_path].
  intros p. apply readFile_reads_checked_path.
Qed.

(** ** The preview of the write prompt *)

Lemma substring0_short n c : String.length c <= n -> substring0 n c = c.
Proof.
  unfold substring0. revert n. induction c as [| x c IH]; intros n Hlen.
  - destruct n; reflexivity.
  - destruct n as [| n]; simpl in *; [lia |]. rewrite IH by lia. reflexivity.
Qed.

Lemma substring0_long pre s :
  substring0 (String.length pre) (pre ++ s) = pre.
Proof. apply substring0_app. Qed.

Lemma writeConfirmation_long path pre s :
  String.length pre = 100 -> s <> EmptyString ->
  writeConfirmation path (pre ++ s)
  = nl ++ warning_sign ++ " Action Required: Attempting to write to file "
       ++ dq ++ Js.toStr path ++ dq ++ "." ++ nl
       ++ "   Content preview (first 100 chars):" ++ nl
       ++ "   " ++ dq ++ pre ++ "..." ++ dq
       ++ nl ++ nl ++ "Do you want to allow this write operation?".
Proof.
  intros Hlen Hs. unfold writeConfirmation.
  rewrite <- Hlen at 1. rewrite substring0_long.
  replace (100 <? String.length (pre ++ s))%nat with true; [reflexivity |].
  symmetry. apply Nat.ltb_lt. rewrite length_append, Hlen.
  destruct s; [congruence | simpl; lia].
Qed.

(** X12: the write prompt shows a content of at most 100 characters in
    full, between double quotes; of a longer one it shows the first 100
    and three dots, so that two contents that agree on their first 100
    characters and go on are put to the operator with the same prompt. *)
Theorem write_prompt_previews_100_characters :
  forall (path : jsval) (pre s1 s2 c : string),
    (String.length c <= 100 ->
     includes (dq ++ c ++ dq) (writeConfirmation path c) = true)
    /\ (String.length pre = 100 -> s1 <> EmptyString -> s2 <> EmptyString ->
        writeConfirmation path (pre ++ s1) = writeConfirmation path (pre ++ s2)).
Proof.
  intros path pre s1 s2 c. split.
  - intros Hlen. unfold writeConfirmation.
    rewrite substring0_short by exact Hlen.
    replace (100 <? String.length c)%nat with false
      by (symmetry; apply Nat.ltb_ge; exact Hlen).
    apply includes_spec.
    exists (nl ++ warning_sign ++ " Action Required: Attempting to write to file "
            ++ dq ++ Js.toStr path ++ dq ++ "." ++ nl
            ++ "   Content preview (first 100 chars):" ++ nl ++ "   "),
           (nl ++ nl ++ "Do you want to allow this write operation?").
    repeat rewrite append_assoc. reflexivity.
  - intros Hlen H1 H2. rewrite !writeConfirmation_long by assumption. reflexivity.
Qed.

Lemma write_prompt_witness :
  writeConfirmation (JStr "run.sh") (hundred ++ "echo ok")
  = writeConfirmation (JStr "run.sh") (hundred ++ "rm -rf /").
Proof.
  apply (proj2 (write_prompt_previews_100_characters (JStr "run.sh") hundred
                  "echo ok" "rm -rf /" EmptyString));
    [reflexivity | discriminate | discriminate].
Defined.

(** ** Listing a directory *)

Lemma readDirRecursive_flat w dir entries h :
  flat entries = true ->
  readDirRecursive w dir (DirEntries entries) h
  = (Ok (map (path_join w dir) (map fst entries)), [EvReaddir dir]).
Proof.
  intros Hflat. simpl. unfold bind at 1, emit.
  match goal with
  | |- context [?each entries ?h'] =>
      assert (Heach : forall h'', each entries h''
                                  = (Ok (map (path_join w dir) (map fst entries)), []))
  end.
  { induction entries as [| [name sub] rest IH]; intros h''; [reflexivity |].
    simpl in Hflat. apply andb_true_iff in Hflat. destruct Hflat as [Hsub Hrest].
    destruct sub; [discriminate Hsub |].
    unfold bind, ret. simpl. rewrite IH by exact Hrest. reflexivity. }
  rewrite Heach. reflexivity.
Qed.

(** X13: [listFile] checks no traversal: for any non-empty string [path],
    [..] included, it reads that directory.  On a directory without
    subdirectories the listing is the same with and without [recursive]:
    one line [- path.join(dir, name)] for each entry, after one [readdir]. *)
Theorem flat_directory_lists_alike :
  forall (w : World) (params : jsval) (h : trace) (dir : string)
         (entries : list (string * option dirtree)),
    Js.prop params "path" = JStr dir ->
    dir <> EmptyString ->
    (Js.nullish (Js.prop params "recursive") = true
     \/ exists flag, Js.prop params "recursive" = JStr flag) ->
    fs_readdir w h dir = DirEntries entries ->
    flat entries = true ->
    listFile w params h
    = (Ok (listing dir (map (path_join w dir) (map fst entries))), [EvReaddir dir]).
Proof.
  intros w params h dir entries Hpath Hne Hrec Hdir Hflat.
  assert (Hn : Js.nullish params = false)
    by (eapply prop_not_nullish; [exact Hpath | discriminate]).
  unfold listFile, readdir_names, listing.
  unfold try_catch, bind at 1, member. rewrite Hn, Hpath.
  unfold ret at 1.
  replace (Js.truthy (JStr dir)) with true
    by (destruct dir; [congruence | reflexivity]).
  unfold bind at 1, ret at 1. rewrite !app_nil_r.
  assert (Hflag : exists recursive,
             (match Js.prop params "recursive" with
              | JUndefined | JNull => ret false
              | JStr s => ret (String.eqb (toLowerCase s) "true")
              | _ => throw (typeError w "params.recursive.toLowerCase")
              end : M bool) = ret recursive).
  { destruct Hrec as [Hnull | [flag ->]]; [| eauto].
    destruct (Js.prop params "recursive"); try discriminate Hnull; eauto. }
  destruct Hflag as [recursive ->].
  unfold bind at 1, ret at 1. rewrite !app_nil_r.
  destruct recursive; unfold bind, string_arg, ret; rewrite !app_nil_r.
  - rewrite Hdir, readDirRecursive_flat by exact Hflat. reflexivity.
  - rewrite Hdir. reflexivity.
Qed.

Lemma flat_directory_witness :
  listFile worldTwoFiles (JObj [("path", JStr "../.."); ("recursive", JStr "TRUE")]) []
  = (Ok (listing "../.." ["../../a.txt"; "../../b.txt"]), [EvReaddir "../.."]).
Proof.
  apply (flat_directory_lists_alike worldTwoFiles
           (JObj [("path", JStr "../.."); ("recursive", JStr "TRUE")]) [] "../.."
           [("a.txt", None); ("b.txt", None)]);
    [reflexivity | discriminate | right; eexists; reflexivity | reflexivity | reflexivity].
Defined.

(** ** The session as a whole *)

Lemma toolEvent_notClose evs :
  forallb isToolEvent evs = true -> forallb notClose evs = true.
Proof.
  rewrite !forallb_forall. intros H e He. specialize (H e He).
  destruct e; try discriminate H; reflexivity.
Qed.

Lemma parseAndExecuteTool_notClose w llmResponse :
  only notClose (parseAndExecuteTool w llmResponse).
Proof.
  intros h.
  destruct (parseAndExecuteTool_shape w llmResponse h)
    as (pr & evs & Hrun & [(-> & _) | (t & rest & -> & Hrest & _)]);
    rewrite Hrun; simpl; [reflexivity |].
  apply toolEvent_notClose. exact Hrest.
Qed.

Lemma turn_notClose w s msg : only notClose (turn w s msg).
Proof.
  unfold turn. apply only_try_catch.
  - apply only_bind; [apply only_request; reflexivity |]. intros result.
    apply only_bind; [apply only_lift |]. intros t.
    destruct (String.eqb t EmptyString).
    + destruct (isBlockReason (finishReason result)); apply only_ret.
    + apply only_bind; [apply parseAndExecuteTool_notClose |]. intros r.
      destruct (negb (isComplete r)); apply only_ret.
  - intros e. destruct (includes "SAFETY" (err_message e)); apply only_ret.
Qed.

Lemma loop_notClose w : forall fuel s, only notClose (loop w fuel s).
Proof.
  induction fuel as [| fuel IH]; intros s; [apply only_ret |].
  rewrite loop_unfold.
  destruct (st_messageToSend s) as [msg |]; [| apply only_ret].
  destruct (negb (st_isComplete s) && (st_turns s <? maxTurns)%nat); [| apply only_ret].
  apply only_bind; [apply turn_notClose |].
  intros [s' broke]. destruct broke; [apply only_ret | apply IH].
Qed.

(** X14: every session closes the operator's terminal once, as its last
    event, whatever happened before, a fault at the task prompt included. *)
Theorem terminal_is_closed_once_at_the_end :
  forall (w : World) (h : trace),
    exists evs,
      snd (main w h) = (evs ++ [EvClose])%list
      /\ forallb notClose evs = true.
Proof.
  intros w h. unfold main, try_finally, emit.
  match goal with
  | |- context [let '(r, e1) := ?m h in _] =>
      assert (Hinner : only notClose m)
  end.
  { apply only_bind; [intros h'; reflexivity |]. intros task.
    apply only_bind; [apply loop_notClose |]. intros s. apply only_ret. }
  specialize (Hinner h).
  match goal with
  | |- context [let '(r, e1) := ?m h in _] => destruct (m h) as [r e1]
  end.
  simpl in *. exists e1. split; [reflexivity | exact Hinner].
Qed.

(** X15: once the operator has given the task, [main] returns one of its
    three reports: no fault of the model, the parser, the filesystem, the
    shell or the terminal escapes it.  A fault at the task prompt itself is
    rethrown after the terminal is closed, and no message was sent. *)
Theorem faults_after_the_task_do_not_escape :
  forall (w : World) (h : trace),
    match rl_question w h "Task: " with
    | Ok task => exists report, fst (main w h) = Ok report
    | Throw e => main w h = (Throw e, [EvQuestion "Task: " (Throw e); EvClose])
    end.
Proof.
  intros w h. pose proof (main_run w h) as Hrun.
  destruct (rl_question w h "Task: ") as [task | e]; [| exact Hrun].
  destruct Hrun as (s & evs & _ & _ & Hmain). rewrite Hmain.
  exists (finalReport s). reflexivity.
Qed.

(** The two kinds of turn: one that ends with the message to the model
    (fault, empty text, block), and one that hands the text to
    [parseAndExecuteTool]. *)
Lemma turn_inv w s msg h :
  (exists s' broke,
     turn w s msg h = (Ok (s', broke), [EvSendMessage msg])
     /\ st_turns s' = S (st_turns s)
     /\ st_messageToSend s' <> None
     /\ (st_isComplete s' = st_isComplete s \/ (st_isComplete s' = true /\ broke = false)))
  \/ (exists pr evs,
        turn w s msg h
        = (Ok (if negb (isComplete pr)
               then mkLoopState (isComplete pr) (S (st_turns s))
                      (Some (toolResultMessage pr))
               else mkLoopState (isComplete pr) (S (st_turns s)) None,
               false),
           EvSendMessage msg :: evs)
        /\ exists t, parseAndExecuteTool w t (h ++ [EvSendMessage msg])%list = (Ok pr, evs)).
Proof.
  destruct (chat_sendMessage w h msg) as [resp | e] eqn:Hsend.
  2: { left. unfold turn, try_catch, bind, request. rewrite Hsend.
       destruct (includes "SAFETY" (err_message e));
         do 2 eexists; (split; [reflexivity |]); simpl;
         repeat split; auto; discriminate. }
  destruct (text resp) as [t | e] eqn:Htext.
  2: { left. unfold turn, try_catch, bind, request, lift. rewrite Hsend, Htext. simpl.
       destruct (includes "SAFETY" (err_message e));
         do 2 eexists; (split; [reflexivity |]); simpl;
         repeat split; auto; discriminate. }
  destruct (String.eqb t EmptyString) eqn:Hempty.
  { left. unfold turn, try_catch, bind, request, lift. rewrite Hsend, Htext. simpl.
    rewrite Hempty.
    destruct (isBlockReason (finishReason resp));
      do 2 eexists; (split; [reflexivity |]); simpl;
      repeat split; auto; discriminate. }
  right.
  destruct (parseAndExecuteTool_shape w t (h ++ [EvSendMessage msg])%list)
    as (pr & evs & Hrun & _).
  exists pr, evs. split; [| eauto].
  apply (turn_tool_result w s msg h resp t pr evs); assumption.
Qed.

Lemma loop_stopped w fuel s h :
  st_messageToSend s = None \/ st_isComplete s = true \/ maxTurns <= st_turns s ->
  loop w fuel s h = (Ok s, []).
Proof.
  intros Hstop. destruct fuel as [| fuel]; [reflexivity |].
  rewrite loop_unfold.
  destruct (st_messageToSend s) as [msg |]; [| reflexivity].
  destruct Hstop as [H | [H | H]]; [discriminate H | rewrite H; reflexivity |].
  replace (st_turns s <? maxTurns)%nat with false
    by (symmetry; apply Nat.ltb_ge; exact H).
  rewrite andb_false_r. reflexivity.
Qed.

Lemma parse_invokes_complete w t h pr evs :
  parseAndExecuteTool w t h = (Ok pr, evs) ->
  In (EvInvoke ToolType.Complete) evs ->
  evs = [EvInvoke ToolType.Complete] /\ isComplete pr = true.
Proof.
  intros Hrun Hin.
  destruct (parseAndExecuteTool_shape w t h) as (pr' & evs' & Hrun' & Hshape).
  rewrite Hrun in Hrun'. injection Hrun' as <- <-.
  destruct Hshape as [(-> & _) | (t' & rest & -> & Hrest & Htag & _ & Htype & _)];
    [destruct Hin |].
  destruct Hin as [Heq | Hin].
  - injection Heq as ->.
    destruct (parseAndExecuteTool_complete w t h pr _ Hrun Htag Htype) as (He & Hc & _).
    auto.
  - rewrite forallb_forall in Hrest. specialize (Hrest _ Hin). discriminate Hrest.
Qed.

Lemma in_invoke_dec t (evs : trace) : In (EvInvoke t) evs \/ ~ In (EvInvoke t) evs.
Proof.
  induction evs as [| e evs IH]; [right; intros [] |].
  destruct IH as [IH | IH]; [left; right; exact IH |].
  destruct e; try (right; intros [H | H]; [discriminate H | contradiction]).
  destruct (string_dec tool t) as [-> | Hne].
  - left. left. reflexivity.
  - right. intros [H | H]; [injection H as H; contradiction | contradiction].
Qed.

Lemma loop_complete_last w : forall fuel s h s' evs,
  loop w fuel s h = (Ok s', evs) ->
  In (EvInvoke ToolType.Complete) evs ->
  exists pre, evs = (pre ++ [EvInvoke ToolType.Complete])%list /\ st_isComplete s' = true.
Proof.
  induction fuel as [| fuel IH]; intros s h s' evs Hloop Hin.
  { injection Hloop as <- <-. destruct Hin. }
  rewrite loop_unfold in Hloop.
  destruct (st_messageToSend s) as [msg |];
    [| injection Hloop as <- <-; destruct Hin].
  destruct (negb (st_isComplete s) && (st_turns s <? maxTurns)%nat);
    [| injection Hloop as <- <-; destruct Hin].
  unfold bind in Hloop.
  destruct (turn_inv w s msg h)
    as [(s1 & broke & Hturn & _) | (pr & tevs & Hturn & t & Hparse)];
    rewrite Hturn in Hloop.
  - destruct broke.
    + injection Hloop as <- <-. simpl in Hin.
      destruct Hin as [Hin | []]; discriminate Hin.
    + destruct (loop w fuel s1 (h ++ [EvSendMessage msg])%list) as [[s2 | e] evs2] eqn:Hrec;
        [| discriminate Hloop].
      injection Hloop as <- <-. simpl in Hin.
      destruct Hin as [Hin | Hin]; [discriminate Hin |].
      destruct (IH _ _ _ _ Hrec Hin) as (pre & -> & Hc).
      exists (EvSendMessage msg :: pre). auto.
  - match type of Hloop with
    | context [loop w fuel ?s1 ?h1] =>
        destruct (loop w fuel s1 h1) as [[s2 | e] evs2] eqn:Hrec;
          [| discriminate Hloop]
    end.
    injection Hloop as <- <-.
    destruct (in_invoke_dec ToolType.Complete tevs) as [Hturn_in | Hnot].
    + destruct (parse_invokes_complete w t _ pr tevs Hparse Hturn_in) as (-> & Hc).
      rewrite Hc in Hrec. simpl in Hrec.
      rewrite loop_stopped in Hrec by (left; reflexivity).
      injection Hrec as <- <-.
      exists [EvSendMessage msg]. auto.
    + change ((EvSendMessage msg :: tevs) ++ evs2)%list
        with (EvSendMessage msg :: tevs ++ evs2)%list in Hin.
      destruct Hin as [Hin | Hin]; [discriminate Hin |].
      apply in_app_or in Hin. destruct Hin as [Hin | Hin]; [contradiction |].
      destruct (IH _ _ _ _ Hrec Hin) as (pre & -> & Hc).
      exists (EvSendMessage msg :: tevs ++ pre)%list.
      split; [| exact Hc]. simpl. rewrite app_assoc. reflexivity.
Qed.

(** X16: once [complete] has been dispatched the session does nothing
    more than close the terminal: no further message goes to the model and
    no other tool runs; the report is the one of completion, or that of
    exhaustion when the turns were used up. *)
Theorem nothing_follows_complete :
  forall (w : World) (h : trace),
    In (EvInvoke ToolType.Complete) (snd (main w h)) ->
    (exists pre, snd (main w h) = (pre ++ [EvInvoke ToolType.Complete; EvClose])%list)
    /\ (fst (main w h) = Ok Completed \/ fst (main w h) = Ok Exhausted).
Proof.
  intros w h Hin. pose proof (main_run w h) as Hrun.
  destruct (rl_question w h "Task: ") as [task | e].
  2: { rewrite Hrun in Hin. cbn [snd] in Hin.
       destruct Hin as [H | [H | []]]; discriminate H. }
  destruct Hrun as (s & evs & Hloop & _ & Hmain).
  rewrite Hmain in Hin |- *. cbn [fst snd] in Hin |- *.
  destruct Hin as [Hin | Hin]; [discriminate Hin |].
  apply in_app_or in Hin. destruct Hin as [Hin | [Hin | []]]; [| discriminate Hin].
  destruct (loop_complete_last w _ _ _ _ _ Hloop Hin) as (pre & -> & Hc).
  split.
  - exists (EvQuestion "Task: " (Ok task) :: pre).
    rewrite <- app_assoc. reflexivity.
  - unfold finalReport. rewrite Hc.
    destruct (maxTurns <=? st_turns s)%nat; auto.
Qed.

Lemma nothing_follows_complete_witness :
  (exists pre,
     snd (main worldHello []) = (pre ++ [EvInvoke ToolType.Complete; EvClose])%list)
  /\ (fst (main worldHello []) = Ok Completed \/ fst (main worldHello []) = Ok Exhausted).
Proof.
  apply (nothing_follows_complete worldHello []).
  vm_compute. repeat (first [left; reflexivity | right]).
Defined.

(** X17: the report looks at the turn counter first: exhaustion is
    reported exactly when [maxTurns] messages went to the model, also when
    the last of these turns dispatched [complete] or ended in a block. *)
Theorem exhausted_iff_all_turns_used :
  forall (w : World) (h : trace),
    fst (main w h) = Ok Exhausted <-> modelCalls (snd (main w h)) = maxTurns.
Proof.
  intros w h. split; [| apply main_model_calls].
  pose proof (main_run w h) as Hrun.
  destruct (rl_question w h "Task: ") as [task | e].
  2: { rewrite Hrun. discriminate. }
  destruct Hrun as (s & evs & Hloop & Hcount & Hmain).
  destruct (loop_counts w maxTurns (mkLoopState false 0 (Some task))
              (h ++ [EvQuestion "Task: " (Ok task)])%list)
    as (s' & evs' & Hloop' & _ & Hbound).
  rewrite Hloop in Hloop'. injection Hloop' as <- <-.
  specialize (Hbound (Nat.le_0_l _)).
  rewrite Hmain. cbn [fst snd].
  change (EvQuestion "Task: " (Ok task) :: evs ++ [EvClose])%list
    with ([EvQuestion "Task: " (Ok task)] ++ evs ++ [EvClose])%list.
  rewrite !modelCalls_app. unfold modelCalls at 1 3. cbn [filter isModelCall length].
  rewrite <- Hcount. unfold finalReport.
  destruct (Nat.leb_spec maxTurns (st_turns s)); [lia |].
  destruct (st_isComplete s); discriminate.
Qed.

(** The session of [worldLateComplete]: [complete] comes on the fifteenth
    turn, and the report is exhaustion. *)
Example late_complete_session :
  In (EvInvoke ToolType.Complete) (snd (main worldLateComplete []))
  /\ modelCalls (snd (main worldLateComplete [])) = 15
  /\ fst (main worldLateComplete []) = Ok Exhausted.
Proof.
  split; [| split].
  - vm_compute. repeat (first [left; reflexivity | right]).
  - vm_compute. reflexivity.
  - vm_compute. reflexivity.
Qed.

Lemma turn_unanswered w s msg h :
  neverAnswers w -> st_isComplete s = false ->
  exists next,
    turn w s msg h
    = (Ok (mkLoopState false (S (st_turns s)) (Some next), false), [EvSendMessage msg]).
Proof.
  intros Hnever Hc.
  destruct (Hnever h msg)
    as [(e & [Hsend | (resp & Hsend & Htext)] & Hsafe) | (resp & Hsend & Htext & Hblock)];
    unfold turn, try_catch, bind, request, lift; rewrite Hsend; simpl.
  - rewrite Hsafe, Hc. eexists. reflexivity.
  - rewrite Htext. simpl. rewrite Hsafe, Hc. eexists. reflexivity.
  - rewrite Htext. simpl. rewrite Hblock, Hc. eexists. reflexivity.
Qed.

Lemma loop_unanswered w :
  neverAnswers w ->
  forall fuel s h msg,
    st_messageToSend s = Some msg -> st_isComplete s = false ->
    st_turns s + fuel = maxTurns ->
    exists s' evs,
      loop w fuel s h = (Ok s', evs)
      /\ st_turns s' = maxTurns
      /\ forallb isModelCall evs = true
      /\ length evs = fuel.
Proof.
  intros Hnever. induction fuel as [| fuel IH]; intros s h msg Hmsg Hc Hturns.
  { exists s, []. repeat split; auto. lia. }
  rewrite loop_unfold, Hmsg, Hc.
  replace (st_turns s <? maxTurns)%nat with true
    by (symmetry; apply Nat.ltb_lt; lia).
  cbn [negb andb].
  destruct (turn_unanswered w s msg h Hnever Hc) as [next Hturn].
  unfold bind. rewrite Hturn.
  destruct (IH (mkLoopState false (S (st_turns s)) (Some next))
              (h ++ [EvSendMessage msg])%list next eq_refl eq_refl)
    as (s' & evs & Hloop & Hfinal & Hcalls & Hlen).
  { simpl. lia. }
  rewrite Hloop. exists s', ([EvSendMessage msg] ++ evs)%list.
  repeat split; auto.
  simpl. rewrite Hlen. reflexivity.
Qed.

(** X18: retries draw on the turn budget.  When the transport never
    delivers a text (each call ends in a fault that does not name SAFETY,
    or in an empty text without a block reason), the session sends exactly
    [maxTurns] messages, runs no tool, and reports exhaustion. *)
Theorem unanswered_calls_use_up_the_turns :
  forall (w : World) (h : trace) (task : string),
    neverAnswers w ->
    rl_question w h "Task: " = Ok task ->
    exists evs,
      main w h = (Ok Exhausted, (EvQuestion "Task: " (Ok task) :: evs ++ [EvClose])%list)
      /\ length evs = maxTurns
      /\ forallb isModelCall evs = true.
Proof.
  intros w h task Hnever Htask.
  destruct (loop_unanswered w Hnever maxTurns (mkLoopState false 0 (Some task))
              (h ++ [EvQuestion "Task: " (Ok task)])%list task eq_refl eq_refl eq_refl)
    as (s & evs & Hloop & Hturns & Hcalls & Hlen).
  exists evs. split; [| auto].
  unfold main, try_finally, bind at 1, question, emit. rewrite Htask.
  unfold bind. rewrite Hloop. unfold ret, finalReport. rewrite Hturns.
  simpl. rewrite app_nil_r. reflexivity.
Qed.

Lemma unanswered_calls_witness :
  exists evs,
    main worldYes []
    = (Ok Exhausted, (EvQuestion "Task: " (Ok "Y") :: evs ++ [EvClose])%list)
    /\ length evs = maxTurns
    /\ forallb isModelCall evs = true.
Proof.
  apply (unanswered_calls_use_up_the_turns worldYes [] "Y").
  - intros h msg. right. eexists. repeat split; reflexivity.
  - reflexivity.
Defined.

Lemma loop_aborted w : forall fuel s h s' evs,
  (st_messageToSend s = None -> st_isComplete s = true) ->
  maxTurns <= st_turns s + fuel ->
  loop w fuel s h = (Ok s', evs) ->
  finalReport s' = Aborted ->
  exists pre msg, evs = (pre ++ [EvSendMessage msg])%list.
Proof.
  assert (Hnot : forall s, finalReport s = Aborted ->
                           st_isComplete s = false /\ st_turns s < maxTurns).
  { intros s. unfold finalReport.
    destruct (Nat.leb_spec maxTurns (st_turns s)); [discriminate |].
    destruct (st_isComplete s); [discriminate | auto]. }
  induction fuel as [| fuel IH]; intros s h s' evs Hgood Hfuel Hloop Hrep.
  { injection Hloop as <- <-. apply Hnot in Hrep. lia. }
  rewrite loop_unfold in Hloop.
  destruct (st_messageToSend s) as [msg |] eqn:Hmsg.
  2: { injection Hloop as <- <-. apply Hnot in Hrep.
       rewrite Hgood in Hrep by reflexivity. destruct Hrep. discriminate. }
  destruct (negb (st_isComplete s) && (st_turns s <? maxTurns)%nat) eqn:Hcond.
  2: { injection Hloop as <- <-. apply Hnot in Hrep. destruct Hrep as [Hc Hlt].
       rewrite Hc in Hcond. apply Nat.ltb_lt in Hlt. rewrite Hlt in Hcond.
       discriminate Hcond. }
  unfold bind in Hloop.
  destruct (turn_inv w s msg h)
    as [(s1 & broke & Hturn & Hturns & Hnext & _) | (pr & tevs & Hturn & _)];
    rewrite Hturn in Hloop.
  - destruct broke.
    + injection Hloop as <- <-. exists [], msg. reflexivity.
    + destruct (loop w fuel s1 (h ++ [EvSendMessage msg])%list) as [[s2 | e] evs2] eqn:Hrec;
        [| discriminate Hloop].
      injection Hloop as <- <-.
      assert (Hgood1 : st_messageToSend s1 = None -> st_isComplete s1 = true)
        by (intros Hn; contradiction).
      assert (Hfuel1 : maxTurns <= st_turns s1 + fuel) by lia.
      destruct (IH s1 _ s2 evs2 Hgood1 Hfuel1 Hrec Hrep) as (pre & m & ->).
      exists (EvSendMessage msg :: pre), m. reflexivity.
  - set (s1 := if negb (isComplete pr)
               then mkLoopState (isComplete pr) (S (st_turns s))
                      (Some (toolResultMessage pr))
               else mkLoopState (isComplete pr) (S (st_turns s)) None) in *.
    destruct (loop w fuel s1 (h ++ EvSendMessage msg :: tevs)%list)
      as [[s2 | e] evs2] eqn:Hrec; [| discriminate Hloop].
    injection Hloop as <- <-.
    assert (Hgood1 : st_messageToSend s1 = None -> st_isComplete s1 = true)
      by (subst s1; destruct (isComplete pr); simpl; [reflexivity | discriminate]).
    assert (Hfuel1 : maxTurns <= st_turns s1 + fuel)
      by (subst s1; destruct (isComplete pr); simpl; lia).
    destruct (IH s1 _ s2 evs2 Hgood1 Hfuel1 Hrec Hrep) as (pre & m & ->).
    exists (EvSendMessage msg :: tevs ++ pre)%list, m.
    simpl. rewrite app_assoc. reflexivity.
Qed.

(** X19: the report of the unexpected stop comes straight after a message
    to the model: the response to it was blocked, and nothing ran between
    that message and the closing of the terminal. *)
Theorem aborted_right_after_a_model_call :
  forall (w : World) (h : trace),
    fst (main w h) = Ok Aborted ->
    exists pre msg, snd (main w h) = (pre ++ [EvSendMessage msg; EvClose])%list.
Proof.
  intros w h Hrep. pose proof (main_run w h) as Hrun.
  destruct (rl_question w h "Task: ") as [task | e].
  2: { rewrite Hrun in Hrep. discriminate Hrep. }
  destruct Hrun as (s & evs & Hloop & _ & Hmain).
  rewrite Hmain in Hrep |- *. cbn [fst snd] in Hrep |- *.
  injection Hrep as Hrep.
  assert (Hgood : st_messageToSend (mkLoopState false 0 (Some task)) = None ->
                  st_isComplete (mkLoopState false 0 (Some task)) = true)
    by (simpl; discriminate).
  destruct (loop_aborted w _ _ _ _ _ Hgood (Nat.le_refl _) Hloop Hrep)
    as (pre & msg & ->).
  exists (EvQuestion "Task: " (Ok task) :: pre), msg.
  rewrite <- app_assoc. reflexivity.
Qed.

Lemma aborted_witness :
  exists pre msg, snd (main worldBlocked []) = (pre ++ [EvSendMessage msg; EvClose])%list.
Proof.
  apply (aborted_right_after_a_model_call worldBlocked []). reflexivity.
Defined.

Lemma loop_completed w : forall fuel s h s' evs,
  st_isComplete s = false ->
  loop w fuel s h = (Ok s', evs) ->
  st_isComplete s' = true ->
  In (EvInvoke ToolType.Complete) evs
  \/ exists pre msg, evs = (pre ++ [EvSendMessage msg])%list.
Proof.
  induction fuel as [| fuel IH]; intros s h s' evs Hc Hloop Hc'.
  { injection Hloop as <- <-. congruence. }
  rewrite loop_unfold in Hloop.
  destruct (st_messageToSend s) as [msg |];
    [| injection Hloop as <- <-; congruence].
  destruct (negb (st_isComplete s) && (st_turns s <? maxTurns)%nat);
    [| injection Hloop as <- <-; congruence].
  unfold bind in Hloop.
  destruct (turn_inv w s msg h)
    as [(s1 & broke & Hturn & _ & _ & Hflag) | (pr & tevs & Hturn & t & Hparse)];
    rewrite Hturn in Hloop.
  - destruct broke.
    + injection Hloop as <- <-. destruct Hflag as [Hflag | [_ Hb]]; congruence.
    + destruct (loop w fuel s1 (h ++ [EvSendMessage msg])%list) as [[s2 | e] evs2] eqn:Hrec;
        [| discriminate Hloop].
      injection Hloop as <- <-.
      destruct (st_isComplete s1) eqn:Hc1.
      * rewrite loop_stopped in Hrec by auto. injection Hrec as <- <-.
        right. exists [], msg. reflexivity.
      * destruct (IH s1 _ s2 evs2 Hc1 Hrec Hc') as [Hin | (pre & m & ->)].
        -- left. right. exact Hin.
        -- right. exists (EvSendMessage msg :: pre), m. reflexivity.
  - set (s1 := if negb (isComplete pr)
               then mkLoopState (isComplete pr) (S (st_turns s))
                      (Some (toolResultMessage pr))
               else mkLoopState (isComplete pr) (S (st_turns s)) None) in *.
    destruct (loop w fuel s1 (h ++ EvSendMessage msg :: tevs)%list)
      as [[s2 | e] evs2] eqn:Hrec; [| discriminate Hloop].
    injection Hloop as <- <-.
    destruct (isComplete pr) eqn:Hpr.
    + left. right. apply in_or_app. left.
      destruct (parseAndExecuteTool_shape w t (h ++ [EvSendMessage msg])%list)
        as (pr' & evs' & Hrun' & Hshape).
      rewrite Hparse in Hrun'. injection Hrun' as <- <-.
      destruct Hshape as [(_ & _ & Hf & _) | (t' & rest & -> & _ & _ & _ & _ & Heq)];
        [congruence |].
      rewrite Hpr in Heq. symmetry in Heq. apply String.eqb_eq in Heq. subst t'.
      left. reflexivity.
    + assert (Hc1 : st_isComplete s1 = false) by (subst s1; reflexivity).
      destruct (IH s1 _ s2 evs2 Hc1 Hrec Hc') as [Hin | (pre & m & ->)].
      * left. right. apply in_or_app. right. exact Hin.
      * right. exists (EvSendMessage msg :: tevs ++ pre)%list, m.
        simpl. rewrite app_assoc. reflexivity.
Qed.

(** X20: the report of completion has two causes only: [complete] was
    dispatched, or the session ended straight after a message to the model
    (the fault that names SAFETY sets the completion flag as well). *)
Theorem completed_report_has_two_causes :
  forall (w : World) (h : trace),
    fst (main w h) = Ok Completed ->
    In (EvInvoke ToolType.Complete) (snd (main w h))
    \/ exists pre msg, snd (main w h) = (pre ++ [EvSendMessage msg; EvClose])%list.
Proof.
  intros w h Hrep. pose proof (main_run w h) as Hrun.
  destruct (rl_question w h "Task: ") as [task | e].
  2: { rewrite Hrun in Hrep. discriminate Hrep. }
  destruct Hrun as (s & evs & Hloop & _ & Hmain).
  rewrite Hmain in Hrep |- *. cbn [fst snd] in Hrep |- *.
  injection Hrep as Hrep.
  assert (Hc : st_isComplete s = true).
  { unfold finalReport in Hrep.
    destruct (maxTurns <=? st_turns s)%nat; [discriminate |].
    destruct (st_isComplete s); [reflexivity | discriminate]. }
  destruct (loop_completed w maxTurns (mkLoopState false 0 (Some task)) _ s evs
              eq_refl Hloop Hc) as [Hin | (pre & msg & ->)].
  - left. right. apply in_or_app. left. exact Hin.
  - right. exists (EvQuestion "Task: " (Ok task) :: pre), msg.
    rewrite <- app_assoc. reflexivity.
Qed.

Lemma completed_report_witness :
  In (EvInvoke ToolType.Complete) (snd (main worldSafetyFault []))
  \/ exists pre msg,
       snd (main worldSafetyFault []) = (pre ++ [EvSendMessage msg; EvClose])%list.
Proof.
  apply (completed_report_has_two_causes worldSafetyFault []). reflexivity.
Defined.
